(** * microschc: the UDP header parser and the UDP compute functions

    A shallow embedding of [microschc/protocol/udp.py] (the UDP parser,
    [_compute_length] and [_compute_checksum]) and of the fixture of
    [tests/decompressor/test_decompressor.py], with the properties the
    specification states about them.

    Python integers are [Z], bit buffers are lists of booleans (most
    significant bit first), byte strings are lists of [byte], and a Python
    exception is the [Raise] case of [result]. *)

From Stdlib Require Import ZArith List String Ascii Bool Lia.
From Stdlib Require Import Init.Byte.
Import ListNotations.

Local Open Scope Z_scope.

(** ** Exceptions and the error monad *)

Inductive exception : Type :=
| ParserError          (* microschc.parser.ParserError *)
| BufferError          (* a slice or chunk request out of bounds *)
| DecompressionError   (* residue too short, or index absent from a mapping *)
| ConfigurationError   (* COMPUTE field without a registered function *)
| IndexError           (* list index out of range *)
| StopIteration        (* next() on an exhausted generator *)
| OverflowError        (* int too big for to_bytes *)
| UnboundLocalError.   (* local variable read before assignment *)

Inductive result (A : Type) : Type :=
| Ok (a : A)
| Raise (e : exception).

Arguments Ok {A} a.
Arguments Raise {A} e.

Definition bind {A B : Type} (r : result A) (k : A -> result B) : result B :=
  match r with
  | Ok a => k a
  | Raise e => Raise e
  end.

Notation "x <- r ;; k" := (bind r (fun x => k))
  (at level 61, r at next level, right associativity).

(** ** Python lists and integers *)

(** [l[i]]: a negative index counts from the end; outside [-len, len) the
    access raises IndexError. *)
Definition py_index {A : Type} (l : list A) (i : Z) : result A :=
  let len := Z.of_nat (List.length l) in
  let j := if i <? 0 then i + len else i in
  if (0 <=? j) && (j <? len) then
    match nth_error l (Z.to_nat j) with
    | Some a => Ok a
    | None => Raise IndexError
    end
  else Raise IndexError.

(** [l[start:0:-1]]: the elements at indices start, start-1, ..., 1, in that
    order.  A negative start counts from the end (and gives the empty list
    when still negative); a start beyond the end begins at the last
    element.  Index 0 is never part of the slice. *)
Definition py_slice_down_to_1 {A : Type} (l : list A) (start : Z) : list A :=
  let len := Z.of_nat (List.length l) in
  let s := if start <? 0 then start + len else start in
  if s <? 0 then []
  else
    let s := Z.min s (len - 1) in
    rev (skipn 1 (firstn (Z.to_nat (s + 1)) l)).

(** [next(offset for offset, x in enumerate(l) if x == target)] *)
Fixpoint next_offset (eqb : string -> string -> bool) (target : string)
    (l : list string) (offset : Z) : result Z :=
  match l with
  | [] => Raise StopIteration
  | x :: l' =>
      if eqb x target then Ok offset
      else next_offset eqb target l' (offset + 1)
  end.

(** [sub in s] on strings. *)
Fixpoint str_in (sub s : string) : bool :=
  if String.prefix sub s then true
  else match s with
       | EmptyString => false
       | String _ s' => str_in sub s'
       end.

(** The bits of one octet, most significant first. *)
Definition byte_bits (x : byte) : list bool :=
  map (N.testbit (Byte.to_N x)) [7; 6; 5; 4; 3; 2; 1; 0]%N.

Definition bits_value (bits : list bool) : Z :=
  fold_left (fun acc bit => 2 * acc + Z.b2z bit) bits 0.

(** The octet holding eight bits (fewer bits are read as a smaller number). *)
Definition bits_byte (bits : list bool) : byte :=
  match Byte.of_N (Z.to_N (bits_value bits)) with
  | Some x => x
  | None => x00
  end.

(** The [k] octets of [z mod 256^k], big-endian. *)
Fixpoint be_bytes (k : nat) (z : Z) : list byte :=
  match k with
  | O => []
  | S k' =>
      be_bytes k' (z / 256) ++
      [match Byte.of_N (Z.to_N (z mod 256)) with Some x => x | None => x00 end]
  end.

(** [z.to_bytes(k, 'big')]: OverflowError unless 0 <= z < 256^k. *)
Definition to_bytes (z : Z) (k : nat) : result (list byte) :=
  if (0 <=? z) && (z <? 256 ^ Z.of_nat k) then Ok (be_bytes k z)
  else Raise OverflowError.

(** ** The bit buffer *)

(** Modelled from the spec: the bit buffer of microschc/binary/buffer.py,
    which is not among the sources.  The spec (sections 3 and 4.1) describes
    it as an ordered sequence of bits, MSB-first, built from backing bytes,
    an exact bit length and a padding side; equality compares the bits and
    the bit length only.  A buffer is therefore its list of bits, and the
    padding side is an argument of the two operations that touch the
    backing bytes ([make] and [content]).

    - [make content length padding]: with LEFT padding the value is the last
      [length] bits of the bytes, with RIGHT padding the first [length]
      bits (bytes too short for [length] give the bits there are).  A
      constructor call that names no padding side is read with LEFT: the
      fixture writes its 20-bit flow label 0xef2d as the three octets
      00 ef 2d;
    - [slice b a c] is [b[a:c]], the bits of the range [a, c); it fails with
      the bounds error when [c] exceeds the length.  The spec says nothing
      about a start that is negative or beyond the stop: the model raises
      the same error there, and nothing below is proved from that choice;
    - [chunks b n pad]: the [n]-bit sub-buffers in order; a final short
      chunk is extended with zero bits at its end when [pad] is set and
      raises otherwise;
    - [value] is the big-endian unsigned reading. *)
Module Buffer.

Inductive Padding : Type := LEFT | RIGHT.

Definition t : Type := list bool.

Definition length (b : t) : Z := Z.of_nat (List.length b).

Definition make (content : list byte) (length : nat) (padding : Padding) : t :=
  let bits := flat_map byte_bits content in
  match padding with
  | LEFT => skipn (List.length bits - length) bits
  | RIGHT => firstn length bits
  end.

Definition slice (b : t) (start stop : Z) : result t :=
  if (0 <=? start) && (start <=? stop) && (stop <=? length b) then
    Ok (firstn (Z.to_nat (stop - start)) (skipn (Z.to_nat start) b))
  else Raise BufferError.

(** [b[start:]] *)
Definition slice_from (b : t) (start : Z) : result t :=
  slice b start (length b).

(** [a + b] *)
Definition concat (a b : t) : t := a ++ b.

Fixpoint split_chunks (count n : nat) (b : t) : list t :=
  match count with
  | O => []
  | S c => firstn n b :: split_chunks c n (skipn n b)
  end.

Definition chunks (b : t) (n : nat) (padding : bool) : result (list t) :=
  let len := List.length b in
  let pieces := split_chunks ((len + n - 1) / n) n b in
  if padding then
    Ok (map (fun c => c ++ repeat false (n - List.length c)) pieces)
  else if (len mod n =? 0)%nat then Ok pieces
  else Raise BufferError.

(** [b.value(type='unsigned int')] *)
Definition value (b : t) : Z := bits_value b.

(** [b.content]: the backing bytes; a last partial byte is filled with
    zero bits on the padding side. *)
Definition content (b : t) (padding : Padding) : list byte :=
  let fill := ((8 - List.length b mod 8) mod 8)%nat in
  let bits := match padding with
              | LEFT => repeat false fill ++ b
              | RIGHT => b ++ repeat false fill
              end in
  map bits_byte (split_chunks (List.length bits / 8) 8 bits).

End Buffer.

Notation "a +++ b" := (Buffer.concat a b) (at level 50, left associativity).

(** ** Field and header descriptors (microschc.rfc8724) *)

(** Modelled from the spec: [FieldDescriptor] and [HeaderDescriptor] of
    microschc/rfc8724.py, which is not among the sources; the spec gives
    them as [(id, position, value)] and [(id, length, fields)]. *)
Record FieldDescriptor : Type := {
  fd_id : string;
  fd_position : Z;
  fd_value : Buffer.t
}.

Record HeaderDescriptor : Type := {
  hd_id : string;
  hd_length : Z;
  hd_fields : list FieldDescriptor
}.

(** ** udp.py *)

Definition UDP_HEADER_ID : string := "UDP".

Module UDPFields.
Definition SOURCE_PORT : string := "UDP:Source Port".
Definition DESTINATION_PORT : string := "UDP:Destination Port".
Definition LENGTH : string := "UDP:Length".
Definition CHECKSUM : string := "UDP:Checksum".
End UDPFields.

Module UDPParser.

Definition parse (buffer : Buffer.t) : result HeaderDescriptor :=
  if Buffer.length buffer <? 64 then Raise ParserError
  else
    source_port <- Buffer.slice buffer 0 16 ;;
    destination_port <- Buffer.slice buffer 16 32 ;;
    length <- Buffer.slice buffer 32 48 ;;
    checksum <- Buffer.slice buffer 48 64 ;;
    Ok {| hd_id := UDP_HEADER_ID;
          hd_length := 64;
          hd_fields := [
            {| fd_id := UDPFields.SOURCE_PORT; fd_position := 0; fd_value := source_port |};
            {| fd_id := UDPFields.DESTINATION_PORT; fd_position := 0; fd_value := destination_port |};
            {| fd_id := UDPFields.LENGTH; fd_position := 0; fd_value := length |};
            {| fd_id := UDPFields.CHECKSUM; fd_position := 0; fd_value := checksum |}
          ] |}.

End UDPParser.

(** The octet count of a bit length, as both compute functions write it:
    [n // 8 if n % 8 == 0 else n // 8 + 1]. *)
Definition octets (n : Z) : Z :=
  if n mod 8 =? 0 then n / 8 else n / 8 + 1.

(** The third and fourth arguments are ignored; they have the type of the
    context that the decompressor hands to every compute function. *)
Definition _compute_length (packet : Buffer.t) (field_cursor : Z)
    (_ : list (string * Buffer.t)) (__ : Z) : result Buffer.t :=
  udp_header_and_payload <- Buffer.slice_from packet (field_cursor - 32) ;;
  let length := octets (Buffer.length udp_header_and_payload) in
  content <- to_bytes length 2 ;;
  Ok (Buffer.make content 16 Buffer.LEFT).

Section ComputeChecksum.

(** The constants that udp.py imports from microschc.protocol.ipv6 and
    microschc.protocol.ipv4, which are not among the sources: the two
    header ids and the ids of the two source-address fields
    ([IPv6Fields.SRC_ADDRESS], [IPv4Fields.SRC_ADDRESS]). *)
Variables IPv6_HEADER_ID IPV4_HEADER_ID : string.
Variables IPv6Fields_SRC_ADDRESS IPv4Fields_SRC_ADDRESS : string.

(** Lines 180-186: the pseudo-header of the IPv6 branch. *)
Definition ipv6_pseudo_header (fields_ids : list string)
    (fields_values : list Buffer.t)
    (preceding_protocol_last_position udp_total_length : Z) : result Buffer.t :=
  let fields_enumeration_reversed :=
    py_slice_down_to_1 fields_ids preceding_protocol_last_position in
  ipv6_source_address_offset <-
    next_offset String.eqb IPv6Fields_SRC_ADDRESS fields_enumeration_reversed 0 ;;
  let ipv6_source_address_position :=
    preceding_protocol_last_position - ipv6_source_address_offset in
  ipv6_source_address <- py_index fields_values ipv6_source_address_position ;;
  ipv6_destination_address <-
    py_index fields_values (ipv6_source_address_position + 1) ;;
  length_bytes <- to_bytes udp_total_length 4 ;;
  let pseudo_header_length := Buffer.make length_bytes 16 Buffer.LEFT in
  let pseudo_header_protocol_id := Buffer.make [x00; x11] 16 Buffer.LEFT in
  Ok (((ipv6_source_address +++ ipv6_destination_address)
         +++ pseudo_header_protocol_id) +++ pseudo_header_length).

(** Lines 199-206: the pseudo-header of the IPv4 branch. *)
Definition ipv4_pseudo_header (fields_ids : list string)
    (fields_values : list Buffer.t)
    (preceding_protocol_last_position udp_total_length : Z) : result Buffer.t :=
  let fields_enumeration_reversed :=
    py_slice_down_to_1 fields_ids preceding_protocol_last_position in
  ipv4_source_address_offset <-
    next_offset String.eqb IPv4Fields_SRC_ADDRESS fields_enumeration_reversed 0 ;;
  let ipv4_source_address_position :=
    preceding_protocol_last_position - ipv4_source_address_offset in
  ipv4_source_address <- py_index fields_values ipv4_source_address_position ;;
  ipv4_destination_address <-
    py_index fields_values (ipv4_source_address_position + 1) ;;
  let pseudo_header_protocol_id := Buffer.make [x00; x11] 16 Buffer.LEFT in
  length_bytes <- to_bytes udp_total_length 2 ;;
  let pseudo_header_length := Buffer.make length_bytes 16 Buffer.LEFT in
  Ok (((ipv4_source_address +++ ipv4_destination_address)
         +++ pseudo_header_protocol_id) +++ pseudo_header_length).

(** Lines 157-206: the dispatch on the id of the field four positions
    before the checksum.  When neither branch is taken [pseudo_header]
    stays unbound, and its first use (line 211) raises. *)
Definition pseudo_header_of (preceding_protocol_last_field : string)
    (fields_ids : list string) (fields_values : list Buffer.t)
    (preceding_protocol_last_position udp_total_length : Z) : result Buffer.t :=
  if str_in IPv6_HEADER_ID preceding_protocol_last_field then
    ipv6_pseudo_header fields_ids fields_values
      preceding_protocol_last_position udp_total_length
  else if str_in IPV4_HEADER_ID preceding_protocol_last_field then
    ipv4_pseudo_header fields_ids fields_values
      preceding_protocol_last_position udp_total_length
  else Raise UnboundLocalError.

(** The body of both summing loops (lines 212-214 and 218-220). *)
Definition add_chunk (sum : Z) (chunk : Buffer.t) : Z :=
  let sum := sum + Buffer.value chunk in
  let carry := Z.shiftr sum 16 in
  Z.land (sum + carry) 0xffff.

(** Lines 208-226: the two loops, their combination and the complement. *)
Definition complemented_sum (pseudo_header udp_header_and_payload : Buffer.t)
    : result Z :=
  pseudo_header_chunks <- Buffer.chunks pseudo_header 16 false ;;
  let pseudo_header_checksum := fold_left add_chunk pseudo_header_chunks 0 in
  udp_chunks <- Buffer.chunks udp_header_and_payload 16 true ;;
  let udp_header_and_payload_checksum := fold_left add_chunk udp_chunks 0 in
  let checksum_value := pseudo_header_checksum + udp_header_and_payload_checksum in
  let carry := Z.shiftr checksum_value 16 in
  let checksum_value := Z.land (checksum_value + carry) 0xffff in
  let checksum_value := Z.land (Z.lnot checksum_value) 0xffff in
  Ok checksum_value.

(** Lines 228-233. *)
Definition checksum_buffer_of (checksum_value : Z) : result Buffer.t :=
  let checksum_value := if checksum_value =? 0x0000 then 0xffff else checksum_value in
  content <- to_bytes checksum_value 2 ;;
  Ok (Buffer.make content 16 Buffer.LEFT).

Definition _compute_checksum (packet : Buffer.t) (field_cursor : Z)
    (decompressed_fields : list (string * Buffer.t))
    (rule_field_position : Z) : result Buffer.t :=
  let fields_ids := map fst decompressed_fields in
  let fields_values := map snd decompressed_fields in
  let udp_checksum_position := rule_field_position in
  let preceding_protocol_last_position := udp_checksum_position - 4 in
  preceding_protocol_last_field <-
    py_index fields_ids preceding_protocol_last_position ;;
  udp_header_and_payload <- Buffer.slice_from packet (field_cursor - 48) ;;
  let udp_total_length := octets (Buffer.length udp_header_and_payload) in
  pseudo_header <-
    pseudo_header_of preceding_protocol_last_field fields_ids fields_values
      preceding_protocol_last_position udp_total_length ;;
  checksum_value <- complemented_sum pseudo_header udp_header_and_payload ;;
  checksum_buffer_of checksum_value.

End ComputeChecksum.

(** The registry at the end of udp.py. *)
Definition ComputeFunctionType : Type :=
  Buffer.t -> Z -> list (string * Buffer.t) -> Z -> result Buffer.t.

Definition UDPComputeFunctions
    (IPv6_HEADER_ID IPV4_HEADER_ID IPv6Fields_SRC_ADDRESS IPv4Fields_SRC_ADDRESS : string)
    (field_id : string) : option ComputeFunctionType :=
  if String.eqb field_id UDPFields.LENGTH then Some _compute_length
  else if String.eqb field_id UDPFields.CHECKSUM then
    Some (_compute_checksum IPv6_HEADER_ID IPV4_HEADER_ID
            IPv6Fields_SRC_ADDRESS IPv4Fields_SRC_ADDRESS)
  else None.

(** ** The rule model and the decompressor *)

(** Modelled from the spec: the rule data model of microschc/rfc8724.py
    (spec section 3), which is not among the sources. *)
Inductive DirectionIndicator : Type := UP | DOWN | BIDIRECTIONAL.

Inductive MatchingOperator : Type := EQUAL | IGNORE | MSB | MATCH_MAPPING.

Inductive CompressionDecompressionAction : Type :=
| NOT_SENT | VALUE_SENT | LSB | MAPPING_SENT | COMPUTE.

Record MatchMapping : Type := {
  forward_mapping : list (Buffer.t * Buffer.t)   (* value, compact index *)
}.

Inductive TargetValue : Type :=
| Target (value : Buffer.t)
| Mapping (mapping : MatchMapping).

Record RuleFieldDescriptor : Type := {
  rf_id : string;
  rf_length : Z;
  rf_position : Z;
  rf_direction : DirectionIndicator;
  rf_target_value : TargetValue;
  rf_matching_operator : MatchingOperator;
  rf_compression_decompression_action : CompressionDecompressionAction
}.

Record RuleDescriptor : Type := {
  rule_id : Buffer.t;
  field_descriptors : list RuleFieldDescriptor
}.

Definition buffer_eqb (a b : Buffer.t) : bool :=
  (List.length a =? List.length b)%nat && forallb (fun p => Bool.eqb (fst p) (snd p)) (combine a b).

Definition direction_eqb (a b : DirectionIndicator) : bool :=
  match a, b with
  | UP, UP | DOWN, DOWN | BIDIRECTIONAL, BIDIRECTIONAL => true
  | _, _ => false
  end.

Section Decompressor.

(** Modelled from the spec: the parts of the decompressor of
    microschc/decompressor/decompressor.py (not among the sources) up to
    [decompress] below, after spec section 4.4 and the SCHC packet of
    tests/decompressor/test_decompressor.py.  The section's variable is
    the registry of compute functions that the decompressor is given. *)
Variable compute_functions : string -> option ComputeFunctionType.

(** Modelled from the spec: the running state of one call (section 4.4),
    the cursor into the SCHC packet, the packet reconstructed so far and
    the context list. *)
Record state : Type := {
  cursor : Z;
  decompressed : Buffer.t;
  decompressed_fields : list (string * Buffer.t)
}.

Definition consume (schc_packet : Buffer.t) (cursor n : Z) : result Buffer.t :=
  match Buffer.slice schc_packet cursor (cursor + n) with
  | Ok bits => Ok bits
  | Raise _ => Raise DecompressionError
  end.

Definition target_buffer (rf : RuleFieldDescriptor) : result Buffer.t :=
  match rf_target_value rf with
  | Target value => Ok value
  | Mapping _ => Raise ConfigurationError
  end.

Definition target_mapping (rf : RuleFieldDescriptor) : result MatchMapping :=
  match rf_target_value rf with
  | Target _ => Raise ConfigurationError
  | Mapping mapping => Ok mapping
  end.

Definition reverse_lookup (mapping : MatchMapping) (index : Buffer.t) : result Buffer.t :=
  match find (fun entry => buffer_eqb (snd entry) index) (forward_mapping mapping) with
  | Some entry => Ok (fst entry)
  | None => Raise DecompressionError
  end.

Definition index_width (mapping : MatchMapping) : Z :=
  match forward_mapping mapping with
  | [] => 0
  | entry :: _ => Buffer.length (snd entry)
  end.

(** Modelled from the spec: the size of a residue of variable length.
    Section 4.4 only says that a variable length is known before the value
    is read; the SCHC packet of the test shows where it comes from: the
    residue carries the size, in bits, in front of the value, in the
    encoding of RFC 8724 (section 7.4.2), 4 bits for a size below 15 (the
    8-bit option value of the fixture has the prefix 1000), 1111 and 8 bits
    for a size below 255 (the 64-bit token has the prefix 1111 01000000),
    1111 11111111 and 16 bits otherwise.  The result is the size and the
    number of bits of the prefix. *)
Definition residue_size (schc_packet : Buffer.t) (cursor : Z) : result (Z * Z) :=
  short <- consume schc_packet cursor 4 ;;
  if Buffer.value short <? 15 then Ok (Buffer.value short, 4)
  else
    medium <- consume schc_packet (cursor + 4) 8 ;;
    if Buffer.value medium <? 255 then Ok (Buffer.value medium, 12)
    else
      long <- consume schc_packet (cursor + 12) 16 ;;
      Ok (Buffer.value long, 28).

(** Modelled from the spec: the branch on the action of one field (section
    4.4); the result is the value of the field and the number of residue
    bits it consumed.  A compute function receives the packet
    reconstructed so far, the field's bit offset in it, the context and the
    field's position, as the section lists them. *)
Definition field_value (schc_packet : Buffer.t) (rf : RuleFieldDescriptor)
    (s : state) : result (Buffer.t * Z) :=
  match rf_compression_decompression_action rf with
  | NOT_SENT =>
      value <- target_buffer rf ;;
      Ok (value, 0)
  | VALUE_SENT =>
      if rf_length rf =? 0 then
        size <- residue_size schc_packet (cursor s) ;;
        let '(length, prefix) := size in
        value <- consume schc_packet (cursor s + prefix) length ;;
        Ok (value, prefix + length)
      else
        value <- consume schc_packet (cursor s) (rf_length rf) ;;
        Ok (value, rf_length rf)
  | LSB =>
      prefix <- target_buffer rf ;;
      let length := rf_length rf - Buffer.length prefix in
      lsb <- consume schc_packet (cursor s) length ;;
      Ok (prefix +++ lsb, length)
  | MAPPING_SENT =>
      mapping <- target_mapping rf ;;
      let length := index_width mapping in
      index <- consume schc_packet (cursor s) length ;;
      value <- reverse_lookup mapping index ;;
      Ok (value, length)
  | COMPUTE =>
      match compute_functions (rf_id rf) with
      | None => Raise ConfigurationError
      | Some compute =>
          value <- compute (decompressed s) (Buffer.length (decompressed s))
                     (decompressed_fields s) (rf_position rf) ;;
          Ok (value, 0)
      end
  end.

Definition in_scope (direction : DirectionIndicator) (rf : RuleFieldDescriptor) : bool :=
  direction_eqb (rf_direction rf) BIDIRECTIONAL || direction_eqb (rf_direction rf) direction.

(** Modelled from the spec: the walk over the rule's fields (section 4.4),
    appending each value to the context and to the output. *)
Fixpoint replay (schc_packet : Buffer.t) (direction : DirectionIndicator)
    (fields : list RuleFieldDescriptor) (s : state) : result state :=
  match fields with
  | [] => Ok s
  | rf :: fields' =>
      if in_scope direction rf then
        r <- field_value schc_packet rf s ;;
        let '(value, consumed) := r in
        replay schc_packet direction fields'
          {| cursor := cursor s + consumed;
             decompressed := decompressed s +++ value;
             decompressed_fields := decompressed_fields s ++ [(rf_id rf, value)] |}
      else replay schc_packet direction fields' s
  end.

(** Modelled from the spec: [decompress] of
    microschc/decompressor/decompressor.py, which is not among the
    sources, after spec section 4.4.  The cursor starts behind the rule id
    bits; the rule's fields are replayed in order, each branching on its
    action; every value is appended to the context and to the output; the
    residue left after the last field is appended verbatim.  Where the
    spec is silent the model takes the following readings: a field is
    replayed when its direction is BIDIRECTIONAL or that of the call (as
    section 4.3 filters them); a length of 0 in the rule marks a variable
    length, read from the residue by [residue_size]; the
    width of a mapping index is that of the mapping's first index; a
    target value of the wrong kind for an action is a configuration
    error. *)
Definition decompress (schc_packet : Buffer.t) (direction : DirectionIndicator)
    (rule : RuleDescriptor) : result Buffer.t :=
  s <- replay schc_packet direction (field_descriptors rule)
         {| cursor := Buffer.length (rule_id rule);
            decompressed := [];
            decompressed_fields := [] |} ;;
  trailing <- match Buffer.slice_from schc_packet (cursor s) with
              | Ok bits => Ok bits
              | Raise _ => Raise DecompressionError
              end ;;
  Ok (decompressed s +++ trailing).

End Decompressor.

(** ** The fixture of tests/decompressor/test_decompressor.py *)

(** Modelled from the spec: the field ids of microschc's IPv6, IPv4 and CoAP
    parsers, which are not among the sources.  The spec only says that an id
    carries the marker of its protocol; the ids below follow the scheme of
    [UDPFields], the header id, a colon and the field name. *)
Definition IPv6_HEADER_ID : string := "IPv6".
Definition IPV4_HEADER_ID : string := "IPv4".

Module IPv6Fields.
Definition VERSION : string := "IPv6:Version".
Definition TRAFFIC_CLASS : string := "IPv6:Traffic Class".
Definition FLOW_LABEL : string := "IPv6:Flow Label".
Definition PAYLOAD_LENGTH : string := "IPv6:Payload Length".
Definition NEXT_HEADER : string := "IPv6:Next Header".
Definition HOP_LIMIT : string := "IPv6:Hop Limit".
Definition SRC_ADDRESS : string := "IPv6:Source Address".
Definition DST_ADDRESS : string := "IPv6:Destination Address".
End IPv6Fields.

Module IPv4Fields.
Definition SRC_ADDRESS : string := "IPv4:Source Address".
Definition DST_ADDRESS : string := "IPv4:Destination Address".
End IPv4Fields.

Module CoAPFields.
Definition VERSION : string := "CoAP:Version".
Definition TYPE : string := "CoAP:Type".
Definition TOKEN_LENGTH : string := "CoAP:Token Length".
Definition CODE : string := "CoAP:Code".
Definition MESSAGE_ID : string := "CoAP:Message ID".
Definition TOKEN : string := "CoAP:Token".
Definition OPTION_DELTA : string := "CoAP:Option Delta".
Definition OPTION_LENGTH : string := "CoAP:Option Length".
Definition OPTION_VALUE : string := "CoAP:Option Value".
Definition PAYLOAD_MARKER : string := "CoAP:Payload Marker".
End CoAPFields.

Module Fixture.

Import Buffer.

Definition valid_stack_packet : list byte := [
  x60; x00; xef; x2d; x00; x68; x11; x40; x20; x01; x0d; xb8; x00; x0a; x00; x00;
  x00; x00; x00; x00; x00; x00; x00; x02; x20; x01; x0d; xb8; x00; x0a; x00; x00;
  x00; x00; x00; x00; x00; x00; x00; x20; xd1; x00; x16; x33; x00; x68; x5c; x21;
  x68; x45; x22; xf6; xb8; x30; x0e; xfe; xe6; x62; x91; x22; xc1; x6e; xff; x5b;
  x7b; x22; x62; x6e; x22; x3a; x22; x2f; x36; x2f; x22; x2c; x22; x6e; x22; x3a;
  x22; x30; x2f; x30; x22; x2c; x22; x76; x22; x3a; x35; x34; x2e; x30; x7d; x2c;
  x7b; x22; x6e; x22; x3a; x22; x30; x2f; x31; x22; x2c; x22; x76; x22; x3a; x34;
  x38; x2e; x30; x7d; x2c; x7b; x22; x6e; x22; x3a; x22; x30; x2f; x35; x22; x2c;
  x22; x76; x22; x3a; x31; x36; x36; x36; x32; x36; x33; x33; x33; x39; x7d; x5d
].

Definition valid_buffer : Buffer.t :=
  make valid_stack_packet (8 * List.length valid_stack_packet) RIGHT.

Definition field (id : string) (length : Z) (direction : DirectionIndicator)
    (target_value : TargetValue) (matching_operator : MatchingOperator)
    (action : CompressionDecompressionAction) : RuleFieldDescriptor :=
  {| rf_id := id; rf_length := length; rf_position := 0;
     rf_direction := direction; rf_target_value := target_value;
     rf_matching_operator := matching_operator;
     rf_compression_decompression_action := action |}.

Definition field_descriptors_1 : list RuleFieldDescriptor := [
  field IPv6Fields.VERSION 4 BIDIRECTIONAL
    (Target (make [x06] 4 LEFT)) EQUAL NOT_SENT;
  field IPv6Fields.TRAFFIC_CLASS 8 BIDIRECTIONAL
    (Target (make [x00] 8 LEFT)) EQUAL NOT_SENT;
  field IPv6Fields.FLOW_LABEL 20 UP
    (Target (make [x00; xef; x2d] 20 LEFT)) EQUAL NOT_SENT;
  field IPv6Fields.PAYLOAD_LENGTH 16 BIDIRECTIONAL
    (Target (make [] 16 LEFT)) IGNORE VALUE_SENT;
  field IPv6Fields.NEXT_HEADER 8 BIDIRECTIONAL
    (Target (make [x11] 8 LEFT)) EQUAL NOT_SENT;
  field IPv6Fields.HOP_LIMIT 8 BIDIRECTIONAL
    (Target (make [x40] 8 LEFT)) EQUAL NOT_SENT;
  field IPv6Fields.SRC_ADDRESS 128 UP
    (Target (make [x20; x01; x0d; xb8; x00; x0a; x00; x00;
                   x00; x00; x00; x00; x00; x00; x00] 120 LEFT)) MSB LSB;
  field IPv6Fields.DST_ADDRESS 128 BIDIRECTIONAL
    (Mapping {| forward_mapping := [
       (make [x20; x01; x0d; xb8; x00; x0a; x00; x00;
              x00; x00; x00; x00; x00; x00; x00; x20] 128 LEFT,
        make [x00] 2 LEFT) ] |}) MATCH_MAPPING MAPPING_SENT;

  field UDPFields.SOURCE_PORT 16 UP
    (Target (make [xd1; x00] 16 LEFT)) EQUAL NOT_SENT;
  field UDPFields.DESTINATION_PORT 16 UP
    (Target (make [x16; x33] 16 LEFT)) EQUAL NOT_SENT;
  field UDPFields.LENGTH 16 BIDIRECTIONAL
    (Target (make [] 0 LEFT)) IGNORE VALUE_SENT;
  field UDPFields.CHECKSUM 16 BIDIRECTIONAL
    (Target (make [] 0 LEFT)) IGNORE VALUE_SENT;

  field CoAPFields.VERSION 2 BIDIRECTIONAL
    (Target (make [x01] 2 LEFT)) EQUAL NOT_SENT;
  field CoAPFields.TYPE 2 BIDIRECTIONAL
    (Target (make [x02] 2 LEFT)) EQUAL NOT_SENT;
  field CoAPFields.TOKEN_LENGTH 4 BIDIRECTIONAL
    (Target (make [] 0 LEFT)) IGNORE VALUE_SENT;
  field CoAPFields.CODE 8 BIDIRECTIONAL
    (Target (make [] 0 LEFT)) IGNORE VALUE_SENT;
  field CoAPFields.MESSAGE_ID 16 BIDIRECTIONAL
    (Target (make [] 0 LEFT)) IGNORE VALUE_SENT;
  field CoAPFields.TOKEN 0 BIDIRECTIONAL
    (Target (make [] 0 LEFT)) IGNORE VALUE_SENT;
  field CoAPFields.OPTION_DELTA 4 UP
    (Target (make [x0c] 4 LEFT)) EQUAL NOT_SENT;
  field CoAPFields.OPTION_LENGTH 4 UP
    (Target (make [] 0 LEFT)) IGNORE VALUE_SENT;
  field CoAPFields.OPTION_VALUE 0 UP
    (Target (make [] 0 LEFT)) IGNORE VALUE_SENT;
  field CoAPFields.PAYLOAD_MARKER 8 UP
    (Target (make [xff] 8 LEFT)) EQUAL NOT_SENT
].

Definition rule_descriptor_1 : RuleDescriptor :=
  {| rule_id := make [x03] 2 LEFT; field_descriptors := field_descriptors_1 |}.

Definition schc_packet : Buffer.t :=
  make [
    xc0; x1a; x00; x80; x06; x85; xc2; x18; x45; x22; xf6; xf4;
    x0b; x83; x00; xef; xee; x66; x29; x12; x21; x86; xe5; xb7;
    xb2; x26; x26; xe2; x23; xa2; x22; xf3; x62; xf2; x22; xc2;
    x26; xe2; x23; xa2; x23; x02; xf3; x02; x22; xc2; x27; x62;
    x23; xa3; x53; x42; xe3; x07; xd2; xc7; xb2; x26; xe2; x23;
    xa2; x23; x02; xf3; x12; x22; xc2; x27; x62; x23; xa3; x43;
    x82; xe3; x07; xd2; xc7; xb2; x26; xe2; x23; xa2; x23; x02;
    xf3; x52; x22; xc2; x27; x62; x23; xa3; x13; x63; x63; x63;
    x23; x63; x33; x33; x33; x97; xd5; xd0
  ] 828 RIGHT.

Definition compute_functions : string -> option ComputeFunctionType :=
  UDPComputeFunctions IPv6_HEADER_ID IPV4_HEADER_ID
    IPv6Fields.SRC_ADDRESS IPv4Fields.SRC_ADDRESS.

Definition decompressed_packet : result Buffer.t :=
  decompress compute_functions schc_packet UP rule_descriptor_1.

End Fixture.

(** ** The specification's words, as definitions of their own *)

Module Spec.

(** The big-endian [width]-bit writing of [z mod 2^width]. *)
Fixpoint be_bits (width : nat) (z : Z) : list bool :=
  match width with
  | O => []
  | S w => be_bits w (z / 2) ++ [Z.odd z]
  end.

(** [ceil(n / 8)] *)
Definition ceil8 (n : Z) : Z := (n + 7) / 8.

(** The bits of the range [a, b) of a buffer. *)
Definition bit_range (buffer : list bool) (a b : nat) : list bool :=
  firstn (b - a) (skipn a buffer).

(** The header descriptor that section 4.2 describes for a buffer. *)
Definition udp_header (buffer : list bool) : HeaderDescriptor :=
  {| hd_id := "UDP";
     hd_length := 64;
     hd_fields := [
       {| fd_id := "UDP:Source Port"; fd_position := 0;
          fd_value := bit_range buffer 0 16 |};
       {| fd_id := "UDP:Destination Port"; fd_position := 0;
          fd_value := bit_range buffer 16 32 |};
       {| fd_id := "UDP:Length"; fd_position := 0;
          fd_value := bit_range buffer 32 48 |};
       {| fd_id := "UDP:Checksum"; fd_position := 0;
          fd_value := bit_range buffer 48 64 |} ] |}.

(** The pseudo-headers as the specification lays them out (section 4.5,
    step 2). *)
Definition ipv4_pseudo_header (source dest : list bool) (udp_length : Z) : list bool :=
  source ++ dest ++ be_bits 8 0 ++ be_bits 8 17 ++ be_bits 16 udp_length.

Definition ipv6_pseudo_header (source dest : list bool) (udp_length : Z) : list bool :=
  source ++ dest ++ be_bits 32 udp_length ++ be_bits 24 0 ++ be_bits 8 17.

(** The pseudo-header that both branches of the code build. *)
Definition compact_pseudo_header (source dest : list bool) (udp_length : Z) : list bool :=
  source ++ dest ++ be_bits 8 0 ++ be_bits 8 17 ++ be_bits 16 udp_length.

(** The 16-bit big-endian words of a buffer of 16 * k bits, read off its
    value as the digits in base 2^16. *)
Definition words16 (buffer : list bool) : list Z :=
  let k := (List.length buffer / 16)%nat in
  map (fun i => (bits_value buffer / 2 ^ (16 * Z.of_nat (k - 1 - i))) mod 2 ^ 16)
      (seq 0 k).

(** Zero bits appended up to an even number of octets. *)
Definition zero_pad_even (buffer : list bool) : list bool :=
  buffer ++ repeat false ((16 - List.length buffer mod 16) mod 16)%nat.

(** End-around carry: the carry out of the low 16 bits is added back
    into them. *)
Definition end_around_carry (s : Z) : Z := s mod 2 ^ 16 + s / 2 ^ 16.

Definition ones_complement_sum (words : list Z) : Z :=
  fold_left (fun sum word => end_around_carry (sum + word)) words 0.

(** Section 4.5, steps 3 and 4 up to the complement. *)
Definition checksum (pseudo_header udp_header_and_payload : list bool) : Z :=
  let combined :=
    end_around_carry
      (ones_complement_sum (words16 pseudo_header) +
       ones_complement_sum (words16 (zero_pad_even udp_header_and_payload))) in
  0xffff - combined.

(** Section 4.5, step 1, as the specification words it: the last field
    before the checksum's rule position whose id lies in the IPv4 or the
    IPv6 namespace. *)
Definition last_network_field (IPv6_HEADER_ID IPV4_HEADER_ID : string)
    (fields_ids : list string) (rule_field_position : nat) : option string :=
  find (fun id => str_in IPv6_HEADER_ID id || str_in IPV4_HEADER_ID id)
       (rev (firstn rule_field_position fields_ids)).

End Spec.

(** The context of the fixture up to the UDP length, read off the
    fixture's packet, and that packet with its checksum field cleared. *)
Module FixtureContext.

Import Fixture.

Definition bits (a b : nat) : Buffer.t := Spec.bit_range valid_buffer a b.

Definition decompressed_fields : list (string * Buffer.t) := [
  (IPv6Fields.VERSION, bits 0 4);
  (IPv6Fields.TRAFFIC_CLASS, bits 4 12);
  (IPv6Fields.FLOW_LABEL, bits 12 32);
  (IPv6Fields.PAYLOAD_LENGTH, bits 32 48);
  (IPv6Fields.NEXT_HEADER, bits 48 56);
  (IPv6Fields.HOP_LIMIT, bits 56 64);
  (IPv6Fields.SRC_ADDRESS, bits 64 192);
  (IPv6Fields.DST_ADDRESS, bits 192 320);
  (UDPFields.SOURCE_PORT, bits 320 336);
  (UDPFields.DESTINATION_PORT, bits 336 352);
  (UDPFields.LENGTH, bits 352 368)
].

Definition packet : Buffer.t :=
  firstn 368 valid_buffer ++ repeat false 16 ++ skipn 384 valid_buffer.

Definition compute_checksum := 
  _compute_checksum IPv6_HEADER_ID IPV4_HEADER_ID
    IPv6Fields.SRC_ADDRESS IPv4Fields.SRC_ADDRESS.

End FixtureContext.

(** A context in which one field of another header stands between the IPv6
    fields and the UDP fields, and the packet that goes with it. *)
Module ExtensionContext.

Definition decompressed_fields : list (string * Buffer.t) :=
  firstn 8 FixtureContext.decompressed_fields ++
  [("Ext:Next Header"%string, Spec.be_bits 8 17)] ++
  skipn 8 FixtureContext.decompressed_fields.

Definition packet : Buffer.t :=
  firstn 320 FixtureContext.packet ++ Spec.be_bits 8 17 ++
  skipn 320 FixtureContext.packet.

End ExtensionContext.

(** An IPv4 datagram without payload whose one's complement sum is 0xFFFF. *)
Module EscapeContext.

Definition decompressed_fields : list (string * Buffer.t) := [
  ("IPv4:Protocol"%string, Spec.be_bits 8 17);
  (IPv4Fields.SRC_ADDRESS, Spec.be_bits 32 0);
  (IPv4Fields.DST_ADDRESS, Spec.be_bits 32 0);
  (UDPFields.SOURCE_PORT, Spec.be_bits 16 0xffde);
  (UDPFields.DESTINATION_PORT, Spec.be_bits 16 0);
  (UDPFields.LENGTH, Spec.be_bits 16 8)
].

Definition packet : Buffer.t :=
  flat_map snd decompressed_fields ++ repeat false 16.

End EscapeContext.

(** Words for the arithmetic of the checksum and for the packet that
    carries it. *)
Module Words.

(** The sum of a list of words, as a plain integer. *)
Definition total (words : list Z) : Z := fold_right Z.add 0 words.

(** The one's complement representative of a sum of 16-bit words: 0 for
    0, otherwise the residue modulo 65535 taken in 1..65535. *)
Definition representative (sum : Z) : Z :=
  if sum =? 0 then 0 else (sum - 1) mod 65535 + 1.

(** The sum of all the 16-bit words that the checksum covers. *)
Definition covered (pseudo_header udp_header_and_payload : list bool) : Z :=
  total (Spec.words16 pseudo_header) +
  total (Spec.words16 (Spec.zero_pad_even udp_header_and_payload)).


End Words.

(** * Properties *)

(** ** Bits, bytes and numbers *)

Lemma bits_value_from (bits : list bool) (acc : Z) :
  fold_left (fun acc bit => 2 * acc + Z.b2z bit) bits acc =
  acc * 2 ^ Z.of_nat (List.length bits) + bits_value bits.
Proof.
  unfold bits_value. revert acc.
  induction bits as [|b bits IH]; intro acc.
  - simpl. lia.
  - cbn [fold_left List.length]. rewrite IH, (IH (2 * 0 + Z.b2z b)).
    rewrite Nat2Z.inj_succ, Z.pow_succ_r by lia. ring.
Qed.

Lemma bits_value_cons (b : bool) (bits : list bool) :
  bits_value (b :: bits) = Z.b2z b * 2 ^ Z.of_nat (List.length bits) + bits_value bits.
Proof.
  unfold bits_value at 1. cbn [fold_left]. rewrite bits_value_from. ring.
Qed.

Lemma bits_value_app (a b : list bool) :
  bits_value (a ++ b) = bits_value a * 2 ^ Z.of_nat (List.length b) + bits_value b.
Proof.
  unfold bits_value at 1. rewrite fold_left_app.
  fold (bits_value a). apply bits_value_from.
Qed.

Lemma bits_value_bounds (bits : list bool) :
  0 <= bits_value bits < 2 ^ Z.of_nat (List.length bits).
Proof.
  induction bits as [|b bits IH].
  - cbn. lia.
  - rewrite bits_value_cons. cbn [List.length].
    rewrite Nat2Z.inj_succ, Z.pow_succ_r by lia.
    destruct b; cbn [Z.b2z]; lia.
Qed.

Lemma bits_value_repeat_false (n : nat) : bits_value (repeat false n) = 0.
Proof.
  induction n as [|n IH]; [reflexivity|].
  cbn [repeat]. rewrite bits_value_cons, IH. cbn. lia.
Qed.

(** Two bit strings of one length with one value are equal. *)
Lemma bits_value_inj (a : list bool) :
  forall b, List.length a = List.length b -> bits_value a = bits_value b -> a = b.
Proof.
  induction a as [|x a IH]; intros [|y b] Hlen Hval; try discriminate.
  - reflexivity.
  - injection Hlen as Hlen.
    rewrite !bits_value_cons, Hlen in Hval.
    pose proof (bits_value_bounds a) as Ha.
    pose proof (bits_value_bounds b) as Hb.
    rewrite Hlen in Ha.
    assert (x = y) as -> by (destruct x, y; cbn [Z.b2z] in Hval; try reflexivity; lia).
    f_equal. apply IH; [exact Hlen | lia].
Qed.

Lemma byte_bits_length (x : byte) : List.length (byte_bits x) = 8%nat.
Proof. reflexivity. Qed.

Lemma byte_bits_value (x : byte) : bits_value (byte_bits x) = Z.of_N (Byte.to_N x).
Proof. destruct x; reflexivity. Qed.

Lemma flat_map_byte_bits_length (content : list byte) :
  List.length (flat_map byte_bits content) = (8 * List.length content)%nat.
Proof.
  induction content as [|x content IH]; [reflexivity|].
  cbn [flat_map]. rewrite length_app, byte_bits_length, IH. cbn [List.length]. lia.
Qed.

(** The octet written for [z mod 256]. *)
Lemma low_byte_value (z : Z) :
  Z.of_N (Byte.to_N
    match Byte.of_N (Z.to_N (z mod 256)) with Some x => x | None => x00 end) =
  z mod 256.
Proof.
  pose proof (Z.mod_pos_bound z 256 ltac:(lia)) as Hz.
  destruct (Byte.of_N (Z.to_N (z mod 256))) as [x|] eqn:E.
  - apply Byte.to_of_N in E. rewrite E. lia.
  - apply Byte.of_N_None_iff in E. lia.
Qed.

Lemma be_bytes_length (k : nat) : forall z, List.length (be_bytes k z) = k.
Proof.
  induction k as [|k IH]; intro z; [reflexivity|].
  cbn [be_bytes]. rewrite length_app, IH. cbn. lia.
Qed.

Lemma be_bytes_value (k : nat) :
  forall z, bits_value (flat_map byte_bits (be_bytes k z)) = z mod 256 ^ Z.of_nat k.
Proof.
  induction k as [|k IH]; intro z.
  - cbn. now rewrite Z.mod_1_r.
  - cbn [be_bytes]. rewrite flat_map_app, bits_value_app, IH.
    cbn [flat_map]. rewrite app_nil_r, byte_bits_length, byte_bits_value, low_byte_value.
    change (2 ^ Z.of_nat 8) with 256.
    rewrite (Nat2Z.inj_succ k), Z.pow_succ_r by lia.
    pose proof (Z.pow_pos_nonneg 256 (Z.of_nat k) ltac:(lia) ltac:(lia)) as Hp.
    rewrite Z.rem_mul_r by lia. ring.
Qed.

Lemma be_bits_length (width : nat) : forall z, List.length (Spec.be_bits width z) = width.
Proof.
  induction width as [|w IH]; intro z; [reflexivity|].
  cbn [Spec.be_bits]. rewrite length_app, IH. cbn. lia.
Qed.

Lemma be_bits_value (width : nat) :
  forall z, bits_value (Spec.be_bits width z) = z mod 2 ^ Z.of_nat width.
Proof.
  induction width as [|w IH]; intro z.
  - cbn. now rewrite Z.mod_1_r.
  - cbn [Spec.be_bits]. rewrite bits_value_app, IH.
    rewrite (Nat2Z.inj_succ w), Z.pow_succ_r by lia.
    pose proof (Z.pow_pos_nonneg 2 (Z.of_nat w) ltac:(lia) ltac:(lia)) as Hp.
    rewrite Z.rem_mul_r by lia.
    replace (bits_value [Z.odd z]) with (z mod 2)
      by (rewrite Zmod_odd; destruct (Z.odd z); reflexivity).
    cbn [List.length]. change (2 ^ Z.of_nat 1) with 2. ring.
Qed.

(** [to_bytes] on two octets and the buffer made of them. *)
Lemma make_two_bytes (z : Z) :
  Buffer.make (be_bytes 2 z) 16 Buffer.LEFT = Spec.be_bits 16 z.
Proof.
  unfold Buffer.make.
  rewrite flat_map_byte_bits_length, be_bytes_length. cbn [Nat.mul Nat.add Nat.sub skipn].
  apply bits_value_inj.
  - now rewrite flat_map_byte_bits_length, be_bytes_length, be_bits_length.
  - rewrite be_bytes_value, be_bits_value. reflexivity.
Qed.

(** Of four octets the buffer of 16 bits keeps the last two. *)
Lemma make_four_bytes (z : Z) :
  Buffer.make (be_bytes 4 z) 16 Buffer.LEFT = Spec.be_bits 16 z.
Proof.
  rewrite <- make_two_bytes.
  unfold Buffer.make.
  rewrite !flat_map_byte_bits_length, !be_bytes_length.
  change (be_bytes 4 z) with (be_bytes 2 (z / 256 / 256) ++ be_bytes 2 z).
  rewrite flat_map_app.
  replace (8 * 4 - 16)%nat
    with (List.length (flat_map byte_bits (be_bytes 2 (z / 256 / 256))) + 0)%nat
    by (rewrite flat_map_byte_bits_length, be_bytes_length; reflexivity).
  rewrite skipn_app.
  rewrite skipn_all2 by lia.
  replace (_ + 0 - _)%nat with 0%nat by lia. reflexivity.
Qed.

Lemma make_protocol_id :
  Buffer.make [x00; x11] 16 Buffer.LEFT = Spec.be_bits 8 0 ++ Spec.be_bits 8 17.
Proof. reflexivity. Qed.

Lemma be_bits_16_value (z : Z) :
  0 <= z < 2 ^ 16 -> Buffer.value (Spec.be_bits 16 z) = z.
Proof.
  intro Hz. unfold Buffer.value. rewrite be_bits_value.
  apply Z.mod_small. exact Hz.
Qed.

Lemma to_bytes_ok (z : Z) (k : nat) :
  0 <= z < 256 ^ Z.of_nat k -> to_bytes z k = Ok (be_bytes k z).
Proof.
  intro Hz. unfold to_bytes.
  destruct (0 <=? z) eqn:E1; [|lia]. destruct (z <? 256 ^ Z.of_nat k) eqn:E2; [|lia].
  reflexivity.
Qed.

Lemma to_bytes_inv (z : Z) (k : nat) (content : list byte) :
  to_bytes z k = Ok content -> 0 <= z < 256 ^ Z.of_nat k /\ content = be_bytes k z.
Proof.
  unfold to_bytes.
  destruct (0 <=? z) eqn:E1; destruct (z <? 256 ^ Z.of_nat k) eqn:E2;
    cbn [andb]; intro H; inversion H. split; [lia | reflexivity].
Qed.

(** ** Slices *)

Lemma slice_ok (b : Buffer.t) (start stop : Z) :
  0 <= start <= stop -> stop <= Buffer.length b ->
  Buffer.slice b start stop = Ok (Spec.bit_range b (Z.to_nat start) (Z.to_nat stop)).
Proof.
  intros H1 H2. unfold Buffer.slice, Spec.bit_range.
  destruct (0 <=? start) eqn:E1; [|lia].
  destruct (start <=? stop) eqn:E2; [|lia].
  destruct (stop <=? Buffer.length b) eqn:E3; [|lia].
  cbn [andb]. now rewrite Z2Nat.inj_sub by lia.
Qed.


Lemma bit_range_length (b : list bool) (i j : nat) :
  (i <= j <= List.length b)%nat -> List.length (Spec.bit_range b i j) = (j - i)%nat.
Proof.
  intro H. unfold Spec.bit_range. rewrite length_firstn, length_skipn. lia.
Qed.

Lemma slice_from_ok (b : Buffer.t) (start : Z) :
  0 <= start <= Buffer.length b ->
  Buffer.slice_from b start = Ok (skipn (Z.to_nat start) b).
Proof.
  intro H. unfold Buffer.slice_from. rewrite slice_ok by lia.
  unfold Spec.bit_range, Buffer.length. rewrite Nat2Z.id.
  rewrite firstn_all2; [reflexivity|]. rewrite length_skipn. lia.
Qed.


(** A range below 64 only sees the first 64 bits. *)
Lemma bit_range_prefix (b : list bool) (i j : nat) :
  (j <= 64)%nat -> Spec.bit_range (firstn 64 b) i j = Spec.bit_range b i j.
Proof.
  intro H. unfold Spec.bit_range.
  rewrite skipn_firstn_comm, firstn_firstn.
  f_equal. lia.
Qed.

(** ** The UDP parser *)

Lemma parse_long (buffer : Buffer.t) :
  64 <= Buffer.length buffer -> UDPParser.parse buffer = Ok (Spec.udp_header buffer).
Proof.
  intro H. unfold UDPParser.parse.
  destruct (Buffer.length buffer <? 64) eqn:E; [lia|].
  rewrite !slice_ok by lia. reflexivity.
Qed.

Lemma parse_short (buffer : Buffer.t) :
  Buffer.length buffer < 64 -> UDPParser.parse buffer = Raise ParserError.
Proof.
  intro H. unfold UDPParser.parse.
  destruct (Buffer.length buffer <? 64) eqn:E; [reflexivity | lia].
Qed.

(** C6. [UDPParser.parse] raises the parser error exactly on the buffers of
    fewer than 64 bits, and on those it returns no header descriptor. *)
Theorem parse_error_iff_short (buffer : Buffer.t) :
  (UDPParser.parse buffer = Raise ParserError <-> Buffer.length buffer < 64) /\
  (Buffer.length buffer < 64 -> forall header, UDPParser.parse buffer <> Ok header).
Proof.
  split; [split|].
  - intro H. destruct (Z.lt_ge_cases (Buffer.length buffer) 64) as [Hs|Hl]; [exact Hs|].
    rewrite parse_long in H by exact Hl. discriminate.
  - apply parse_short.
  - intros H header. rewrite parse_short by exact H. discriminate.
Qed.

Lemma parse_error_iff_short_witness :
  UDPParser.parse (repeat true 63) = Raise ParserError.
Proof.
  apply (proj2 (proj1 (parse_error_iff_short (repeat true 63)))).
  vm_compute. reflexivity.
Defined.

(** C7. On a buffer of at least 64 bits [UDPParser.parse] returns the
    header descriptor with id UDP and length 64 whose four fields, in
    order, are the source port (bits 0 to 16), the destination port
    (bits 16 to 32), the length (bits 32 to 48) and the checksum (bits 48
    to 64), each 16 bits wide and at position 0. *)
Theorem parse_four_fields (buffer : Buffer.t) :
  64 <= Buffer.length buffer ->
  UDPParser.parse buffer =
    Ok {| hd_id := UDP_HEADER_ID;
          hd_length := 64;
          hd_fields := [
            {| fd_id := UDPFields.SOURCE_PORT; fd_position := 0;
               fd_value := Spec.bit_range buffer 0 16 |};
            {| fd_id := UDPFields.DESTINATION_PORT; fd_position := 0;
               fd_value := Spec.bit_range buffer 16 32 |};
            {| fd_id := UDPFields.LENGTH; fd_position := 0;
               fd_value := Spec.bit_range buffer 32 48 |};
            {| fd_id := UDPFields.CHECKSUM; fd_position := 0;
               fd_value := Spec.bit_range buffer 48 64 |} ] |} /\
  Forall (fun f => Buffer.length (fd_value f) = 16)
    (hd_fields (Spec.udp_header buffer)).
Proof.
  intro H. split; [apply parse_long; exact H|].
  unfold Buffer.length in *.
  repeat constructor; cbn [fd_value]; rewrite bit_range_length; lia.
Qed.

Lemma parse_four_fields_witness :
  UDPParser.parse (Spec.be_bits 64 0xd10016330068690e ++ [true; false; true]) =
    Ok {| hd_id := "UDP";
          hd_length := 64;
          hd_fields := [
            {| fd_id := "UDP:Source Port"; fd_position := 0;
               fd_value := Spec.be_bits 16 0xd100 |};
            {| fd_id := "UDP:Destination Port"; fd_position := 0;
               fd_value := Spec.be_bits 16 0x1633 |};
            {| fd_id := "UDP:Length"; fd_position := 0;
               fd_value := Spec.be_bits 16 0x0068 |};
            {| fd_id := "UDP:Checksum"; fd_position := 0;
               fd_value := Spec.be_bits 16 0x690e |} ] |}.
Proof.
  apply (proj1 (parse_four_fields
                  (Spec.be_bits 64 0xd10016330068690e ++ [true; false; true])
                  ltac:(vm_compute; discriminate))).
Defined.

(** C9. Two buffers of at least 64 bits that agree on their first 64 bits
    parse to the same header descriptor: the bits behind the header do not
    reach the result. *)
Theorem parse_depends_on_header_only (b1 b2 : Buffer.t) :
  64 <= Buffer.length b1 -> 64 <= Buffer.length b2 ->
  firstn 64 b1 = firstn 64 b2 ->
  UDPParser.parse b1 = UDPParser.parse b2.
Proof.
  intros H1 H2 Heq. rewrite !parse_long by assumption.
  unfold Spec.udp_header.
  rewrite <- (bit_range_prefix b1 0 16), <- (bit_range_prefix b1 16 32),
          <- (bit_range_prefix b1 32 48), <- (bit_range_prefix b1 48 64) by lia.
  rewrite Heq.
  rewrite !bit_range_prefix by lia. reflexivity.
Qed.

Lemma parse_depends_on_header_only_witness :
  UDPParser.parse (repeat true 64 ++ [false; false]) =
  UDPParser.parse (repeat true 64 ++ [true; false; true]).
Proof.
  apply parse_depends_on_header_only.
  - vm_compute. discriminate.
  - vm_compute. discriminate.
  - reflexivity.
Defined.

(** ** [_compute_length] *)

Lemma octets_ceil8 (n : Z) : octets n = Spec.ceil8 n.
Proof.
  unfold octets, Spec.ceil8.
  destruct (n mod 8 =? 0) eqn:E.
  - apply Z.eqb_eq in E. Z.div_mod_to_equations. lia.
  - apply Z.eqb_neq in E. Z.div_mod_to_equations. lia.
Qed.

Lemma skipn_length_Z (b : list bool) (start : Z) :
  0 <= start <= Buffer.length b ->
  Buffer.length (skipn (Z.to_nat start) b) = Buffer.length b - start.
Proof.
  unfold Buffer.length. intro H. rewrite length_skipn. lia.
Qed.

(** C4, as the code has it: when the cursor lies at least 32 bits into the
    packet and the octet count fits the two octets of the field,
    [_compute_length] returns the 16-bit big-endian buffer of ceil(n/8),
    n being the number of bits from 32 bits before the cursor to the end
    of the packet. *)
Theorem compute_length_is_ceil (packet : Buffer.t) (field_cursor : Z)
    (fields : list (string * Buffer.t)) (position : Z) :
  32 <= field_cursor <= Buffer.length packet + 32 ->
  Spec.ceil8 (Buffer.length packet - (field_cursor - 32)) < 2 ^ 16 ->
  exists buffer,
    _compute_length packet field_cursor fields position = Ok buffer /\
    Buffer.length buffer = 16 /\
    Buffer.value buffer = Spec.ceil8 (Buffer.length packet - (field_cursor - 32)).
Proof.
  intros Hc Hn.
  set (n := Buffer.length packet - (field_cursor - 32)) in *.
  assert (0 <= Spec.ceil8 n) as Hpos.
  { unfold Spec.ceil8. apply Z.div_pos; lia. }
  exists (Spec.be_bits 16 (Spec.ceil8 n)). split; [|split].
  - unfold _compute_length.
    rewrite slice_from_ok by lia. cbn [bind].
    rewrite skipn_length_Z by lia. fold n.
    rewrite octets_ceil8, to_bytes_ok by (change (256 ^ Z.of_nat 2) with (2 ^ 16); lia).
    cbn [bind]. now rewrite make_two_bytes.
  - unfold Buffer.length. now rewrite be_bits_length.
  - apply be_bits_16_value. lia.
Qed.

Lemma compute_length_is_ceil_witness :
  exists buffer,
    _compute_length (repeat true 45) 32 [] 0 = Ok buffer /\
    Buffer.length buffer = 16 /\
    Buffer.value buffer = 6.
Proof.
  apply (compute_length_is_ceil (repeat true 45) 32 [] 0).
  - vm_compute. split; discriminate.
  - vm_compute. reflexivity.
Defined.

(** C4 as the specification states it fails on a packet whose UDP part
    takes 65536 octets: the octet count does not fit [to_bytes(2, 'big')]
    and the call raises. *)
Lemma compute_length_overflow :
  _compute_length (repeat false (Z.to_nat 524288)) 32 [] 0 = Raise OverflowError /\
  Spec.ceil8 (Buffer.length (repeat false (Z.to_nat 524288)) - (32 - 32)) = 65536.
Proof.
  split; vm_compute; reflexivity.
Qed.

(** ** The one's complement sum *)

Lemma fold_carry (s : Z) :
  0 <= s <= 0x1fffe ->
  Z.land (s + Z.shiftr s 16) 0xffff = Spec.end_around_carry s /\
  0 <= Spec.end_around_carry s <= 0xffff.
Proof.
  intro Hs. unfold Spec.end_around_carry.
  rewrite Z.shiftr_div_pow2 by lia.
  change 0xffff with (Z.ones 16). rewrite Z.land_ones by lia.
  change (Z.ones 16) with 65535. change (2 ^ 16) with 65536.
  assert (s < 65536 \/ 65536 <= s) as [Hlo|Hhi] by lia.
  - rewrite (Z.div_small s) by lia. rewrite Z.add_0_r, !Z.mod_small by lia. lia.
  - assert (s / 65536 = 1) as -> by (Z.div_mod_to_equations; lia).
    assert (s mod 65536 = s - 65536) as -> by (Z.div_mod_to_equations; lia).
    assert ((s + 1) mod 65536 = s + 1 - 65536) as -> by (Z.div_mod_to_equations; lia).
    lia.
Qed.

Lemma chunk_value_bounds (chunk : Buffer.t) :
  (List.length chunk <= 16)%nat -> 0 <= Buffer.value chunk <= 0xffff.
Proof.
  intro H. unfold Buffer.value.
  pose proof (bits_value_bounds chunk) as Hb.
  assert (2 ^ Z.of_nat (List.length chunk) <= 2 ^ 16)
    by (apply Z.pow_le_mono_r; lia).
  change (2 ^ 16) with 65536 in *. lia.
Qed.

(** One loop of the code is the one's complement sum of the chunk values. *)
Lemma add_chunk_loop (chunks : list Buffer.t) :
  Forall (fun c => (List.length c <= 16)%nat) chunks ->
  forall sum, 0 <= sum <= 0xffff ->
  fold_left add_chunk chunks sum =
    fold_left (fun sum word => Spec.end_around_carry (sum + word))
              (map Buffer.value chunks) sum /\
  0 <= fold_left add_chunk chunks sum <= 0xffff.
Proof.
  induction 1 as [|c chunks Hc _ IH]; intros sum Hsum.
  - cbn. split; [reflexivity | exact Hsum].
  - cbn [fold_left map].
    pose proof (chunk_value_bounds c Hc) as Hv.
    assert (add_chunk sum c = Spec.end_around_carry (sum + Buffer.value c) /\
            0 <= Spec.end_around_carry (sum + Buffer.value c) <= 0xffff) as [E Hb].
    { unfold add_chunk. apply fold_carry. lia. }
    rewrite E. apply IH. exact Hb.
Qed.

(** ** Chunks *)

Lemma split_chunks_short (count n : nat) :
  forall b, Forall (fun c => (List.length c <= n)%nat) (Buffer.split_chunks count n b).
Proof.
  induction count as [|count IH]; intro b; cbn [Buffer.split_chunks]; constructor.
  - rewrite length_firstn. lia.
  - apply IH.
Qed.

(** The values of the 16-bit pieces of a buffer of 16 * k bits are its
    digits in base 2^16. *)
Lemma split_chunks_digits (k : nat) :
  forall b, List.length b = (16 * k)%nat ->
  map Buffer.value (Buffer.split_chunks k 16 b) =
  map (fun i => (bits_value b / 2 ^ (16 * Z.of_nat (k - 1 - i))) mod 2 ^ 16) (seq 0 k).
Proof.
  induction k as [|k IH]; intros b Hlen; [reflexivity|].
  cbn [Buffer.split_chunks map seq].
  assert (List.length (firstn 16 b) = 16%nat) as Hh
    by (rewrite length_firstn; lia).
  assert (List.length (skipn 16 b) = (16 * k)%nat) as Ht
    by (rewrite length_skipn; lia).
  pose proof (bits_value_bounds (firstn 16 b)) as Bh.
  pose proof (bits_value_bounds (skipn 16 b)) as Bt.
  rewrite Hh in Bh. rewrite Ht in Bt.
  assert (bits_value b =
          bits_value (firstn 16 b) * 2 ^ Z.of_nat (16 * k) + bits_value (skipn 16 b)) as Hv.
  { rewrite <- (firstn_skipn 16 b) at 1. now rewrite bits_value_app, Ht. }
  f_equal.
  - unfold Buffer.value. rewrite Hv.
    replace (16 * Z.of_nat (S k - 1 - 0)) with (Z.of_nat (16 * k)) by lia.
    rewrite Z.div_add_l by lia.
    rewrite (Z.div_small (bits_value (skipn 16 b))) by lia.
    rewrite Z.add_0_r. symmetry. apply Z.mod_small. exact Bh.
  - rewrite IH by exact Ht. rewrite <- seq_shift, map_map.
    apply map_ext_in. intros i Hi. apply in_seq in Hi.
    rewrite Hv.
    replace (S k - 1 - S i)%nat with (k - 1 - i)%nat by lia.
    replace (Z.of_nat (16 * k))
      with (16 * Z.of_nat i + 16 + 16 * Z.of_nat (k - 1 - i)) by lia.
    rewrite !Z.pow_add_r by lia.
    rewrite !Z.mul_assoc.
    rewrite Z.div_add_l by (apply Z.pow_nonzero; lia).
    rewrite (Z.add_comm _ (bits_value (skipn 16 b) / _)).
    rewrite Z.mod_add by lia. reflexivity.
Qed.

Lemma chunks_exact (b : Buffer.t) :
  (List.length b mod 16 = 0)%nat ->
  Buffer.chunks b 16 false = Ok (Buffer.split_chunks (List.length b / 16) 16 b).
Proof.
  intro H. unfold Buffer.chunks. rewrite H. cbn [Nat.eqb].
  do 2 f_equal.
  pose proof (Nat.div_mod_eq (List.length b) 16) as E.
  rewrite H, Nat.add_0_r in E.
  rewrite E at 1.
  replace (16 * (List.length b / 16) + 16 - 1)%nat
    with (15 + (List.length b / 16) * 16)%nat by lia.
  rewrite Nat.div_add by lia. reflexivity.
Qed.

Lemma chunks_inexact (b : Buffer.t) :
  (List.length b mod 16 <> 0)%nat -> Buffer.chunks b 16 false = Raise BufferError.
Proof.
  intro H. unfold Buffer.chunks.
  destruct (List.length b mod 16 =? 0)%nat eqn:E; [apply Nat.eqb_eq in E; lia | reflexivity].
Qed.

(** Extending the last short piece with zeros is cutting the buffer
    extended with zeros. *)
Lemma split_chunks_padded (count : nat) :
  forall b fill,
  (List.length b + fill = 16 * count)%nat -> (fill < 16)%nat ->
  map (fun c => c ++ repeat false (16 - List.length c)) (Buffer.split_chunks count 16 b) =
  Buffer.split_chunks count 16 (b ++ repeat false fill).
Proof.
  induction count as [|count IH]; intros b fill Hlen Hfill; [reflexivity|].
  cbn [Buffer.split_chunks map].
  destruct count as [|count].
  - assert (List.length b <= 16)%nat as Hb by lia.
    rewrite firstn_all2 by lia.
    replace (16 - List.length b)%nat with fill by lia.
    rewrite (firstn_all2 (b ++ repeat false fill))
      by (rewrite length_app, repeat_length; lia).
    reflexivity.
  - assert (16 <= List.length b)%nat as Hb by lia.
    rewrite firstn_app, skipn_app.
    replace (16 - List.length b)%nat with 0%nat by lia.
    rewrite firstn_O, skipn_O, app_nil_r.
    rewrite length_firstn, Nat.min_l by lia.
    rewrite Nat.sub_diag. cbn [repeat]. rewrite app_nil_r.
    f_equal. apply IH; [rewrite length_skipn; lia | exact Hfill].
Qed.

Lemma zero_pad_even_length (b : Buffer.t) :
  (List.length (Spec.zero_pad_even b) mod 16 = 0)%nat /\
  ((List.length b + 16 - 1) / 16 = List.length (Spec.zero_pad_even b) / 16)%nat /\
  (List.length b + (16 - List.length b mod 16) mod 16 =
   16 * ((List.length b + 16 - 1) / 16))%nat.
Proof.
  unfold Spec.zero_pad_even. rewrite length_app, repeat_length.
  pose proof (Nat.div_mod_eq (List.length b) 16) as E.
  pose proof (Nat.mod_upper_bound (List.length b) 16 ltac:(lia)) as Hr.
  set (q := (List.length b / 16)%nat) in *.
  set (r := (List.length b mod 16)%nat) in *.
  destruct (Nat.eq_dec r 0) as [Hz|Hnz].
  - rewrite Hz in *. change ((16 - 0) mod 16)%nat with 0%nat.
    rewrite E, !Nat.add_0_r.
    replace (16 * q + 16 - 1)%nat with (15 + q * 16)%nat by lia.
    rewrite Nat.div_add by lia. change (15 / 16)%nat with 0%nat.
    rewrite (Nat.mul_comm 16 q), Nat.Div0.mod_mul, Nat.div_mul by lia. lia.
  - rewrite (Nat.mod_small (16 - r) 16) by lia.
    replace (List.length b + (16 - r))%nat with ((q + 1) * 16)%nat by lia.
    rewrite Nat.Div0.mod_mul, Nat.div_mul by lia.
    replace (List.length b + 16 - 1)%nat with ((r - 1) + (q + 1) * 16)%nat by lia.
    rewrite Nat.div_add by lia. rewrite (Nat.div_small (r - 1) 16) by lia. lia.
Qed.

Lemma chunks_padded (b : Buffer.t) :
  Buffer.chunks b 16 true =
  Ok (Buffer.split_chunks (List.length (Spec.zero_pad_even b) / 16) 16 (Spec.zero_pad_even b)).
Proof.
  unfold Buffer.chunks.
  destruct (zero_pad_even_length b) as (_ & Hc & Hl).
  rewrite <- Hc. unfold Spec.zero_pad_even.
  rewrite <- split_chunks_padded; [reflexivity | exact Hl |].
  apply Nat.mod_upper_bound. lia.
Qed.

(** Lines 208-226 compute the specification's checksum. *)
Lemma complemented_sum_spec (pseudo_header udp_header_and_payload : Buffer.t) :
  (List.length pseudo_header mod 16 = 0)%nat ->
  complemented_sum pseudo_header udp_header_and_payload =
    Ok (Spec.checksum pseudo_header udp_header_and_payload) /\
  0 <= Spec.checksum pseudo_header udp_header_and_payload <= 0xffff.
Proof.
  intro Hph. unfold complemented_sum.
  rewrite chunks_exact by exact Hph. cbn [bind].
  rewrite chunks_padded. cbn [bind].
  destruct (zero_pad_even_length udp_header_and_payload) as (Hpad & _ & _).
  set (padded := Spec.zero_pad_even udp_header_and_payload) in *.
  destruct (add_chunk_loop _ (split_chunks_short (List.length pseudo_header / 16) 16 pseudo_header)
              0 ltac:(lia)) as [E1 B1].
  destruct (add_chunk_loop _ (split_chunks_short (List.length padded / 16) 16 padded)
              0 ltac:(lia)) as [E2 B2].
  rewrite E1 in *. rewrite E2 in *.
  rewrite split_chunks_digits in *
    by (pose proof (Nat.div_mod_eq (List.length pseudo_header) 16); lia).
  rewrite split_chunks_digits in *
    by (pose proof (Nat.div_mod_eq (List.length padded) 16); lia).
  fold (Spec.words16 pseudo_header) in *. fold (Spec.words16 padded) in *.
  fold (Spec.ones_complement_sum (Spec.words16 pseudo_header)) in *.
  fold (Spec.ones_complement_sum (Spec.words16 padded)) in *.
  set (s := Spec.ones_complement_sum (Spec.words16 pseudo_header) +
            Spec.ones_complement_sum (Spec.words16 padded)) in *.
  destruct (fold_carry s ltac:(lia)) as [E3 B3].
  rewrite E3. unfold Spec.checksum. fold padded. fold s.
  set (c := Spec.end_around_carry s) in *.
  assert (Z.land (Z.lnot c) 0xffff = 0xffff - c) as ->.
  { change 0xffff with (Z.ones 16). rewrite Z.land_ones by lia.
    unfold Z.lnot. change (Z.ones 16) with 65535 in *. change (2 ^ 16) with 65536.
    Z.div_mod_to_equations. lia. }
  split; [reflexivity | lia].
Qed.

(** ** [_compute_checksum] *)

Lemma Ok_inj {A : Type} (a b : A) : Ok a = Ok b -> a = b.
Proof. intro H. now inversion H. Qed.

Lemma bind_ok {A B : Type} (r : result A) (k : A -> result B) (b : B) :
  bind r k = Ok b -> exists a, r = Ok a /\ k a = Ok b.
Proof.
  destruct r as [a|e]; cbn [bind]; intro H; [eauto | discriminate].
Qed.

Lemma checksum_buffer_of_inv (checksum_value : Z) (buffer : Buffer.t) :
  checksum_buffer_of checksum_value = Ok buffer ->
  let sent := if checksum_value =? 0 then 0xffff else checksum_value in
  0 < sent < 2 ^ 16 /\ buffer = Spec.be_bits 16 sent.
Proof.
  unfold checksum_buffer_of. intro H.
  apply bind_ok in H as (content & Hc & Hb).
  apply to_bytes_inv in Hc as [Hr ->].
  rewrite make_two_bytes in Hb. inversion Hb. cbn zeta.
  change (256 ^ Z.of_nat 2) with (2 ^ 16) in Hr.
  split; [|reflexivity].
  destruct (checksum_value =? 0) eqn:E; [lia|].
  apply Z.eqb_neq in E. lia.
Qed.

Section ComputeChecksumProperties.

Variables IPv6_HEADER_ID IPV4_HEADER_ID : string.
Variables IPv6Fields_SRC_ADDRESS IPv4Fields_SRC_ADDRESS : string.


(** What a returning call went through. *)
Lemma compute_checksum_inv (packet : Buffer.t) (field_cursor : Z)
    (fields : list (string * Buffer.t)) (position : Z) (buffer : Buffer.t) :
  _compute_checksum IPv6_HEADER_ID IPV4_HEADER_ID
    IPv6Fields_SRC_ADDRESS IPv4Fields_SRC_ADDRESS packet field_cursor fields position = Ok buffer ->
  exists id udp ph value,
    py_index (map fst fields) (position - 4) = Ok id /\
    Buffer.slice_from packet (field_cursor - 48) = Ok udp /\
    pseudo_header_of IPv6_HEADER_ID IPV4_HEADER_ID
      IPv6Fields_SRC_ADDRESS IPv4Fields_SRC_ADDRESS id (map fst fields) (map snd fields) (position - 4)
      (octets (Buffer.length udp)) = Ok ph /\
    complemented_sum ph udp = Ok value /\
    checksum_buffer_of value = Ok buffer.
Proof.
  unfold _compute_checksum. intro H.
  apply bind_ok in H as (id & Hid & H).
  apply bind_ok in H as (udp & Hudp & H).
  apply bind_ok in H as (ph & Hph & H).
  apply bind_ok in H as (value & Hv & H).
  exists id, udp, ph, value. auto.
Qed.

Lemma complemented_sum_inv (ph udp : Buffer.t) (value : Z) :
  complemented_sum ph udp = Ok value ->
  (List.length ph mod 16 = 0)%nat /\ value = Spec.checksum ph udp.
Proof.
  intro H.
  destruct (Nat.eq_dec (List.length ph mod 16) 0) as [E|E].
  - destruct (complemented_sum_spec ph udp E) as [Hs _].
    rewrite Hs in H. inversion H. auto.
  - unfold complemented_sum in H. rewrite chunks_inexact in H by exact E.
    discriminate.
Qed.

(** A returning call, with the sum put in the specification's terms and
    the branch that built the pseudo-header. *)
Lemma compute_checksum_trace (packet : Buffer.t)
    (field_cursor : Z) (fields : list (string * Buffer.t)) (position : Z)
    (buffer : Buffer.t) :
  _compute_checksum IPv6_HEADER_ID IPV4_HEADER_ID
    IPv6Fields_SRC_ADDRESS IPv4Fields_SRC_ADDRESS packet field_cursor fields position = Ok buffer ->
  exists id udp ph,
    py_index (map fst fields) (position - 4) = Ok id /\
    Buffer.slice_from packet (field_cursor - 48) = Ok udp /\
    pseudo_header_of IPv6_HEADER_ID IPV4_HEADER_ID
      IPv6Fields_SRC_ADDRESS IPv4Fields_SRC_ADDRESS id (map fst fields) (map snd fields) (position - 4)
      (octets (Buffer.length udp)) = Ok ph /\
    complemented_sum ph udp = Ok (Spec.checksum ph udp) /\
    checksum_buffer_of (Spec.checksum ph udp) = Ok buffer /\
    ((str_in IPv6_HEADER_ID id = true /\
      ipv6_pseudo_header IPv6Fields_SRC_ADDRESS (map fst fields) (map snd fields)
        (position - 4) (octets (Buffer.length udp)) = Ok ph)
     \/
     (str_in IPv6_HEADER_ID id = false /\ str_in IPV4_HEADER_ID id = true /\
      ipv4_pseudo_header IPv4Fields_SRC_ADDRESS (map fst fields) (map snd fields)
        (position - 4) (octets (Buffer.length udp)) = Ok ph)).
Proof.
  intro H. apply compute_checksum_inv in H as (id & udp & ph & value & H1 & H2 & H3 & H4 & H5).
  apply complemented_sum_inv in H4 as H6. destruct H6 as [_ ->].
  exists id, udp, ph. repeat (split; [assumption|]).
  unfold pseudo_header_of in H3.
  destruct (str_in IPv6_HEADER_ID id); [left; auto|].
  destruct (str_in IPV4_HEADER_ID id); [right; auto | discriminate].
Qed.

(** C2. The checksum that [_compute_checksum] returns is computed as the
    specification says: the 16-bit big-endian words of the pseudo-header
    are summed, then those of the UDP header and payload padded with
    zeros to an even number of octets, the carry being folded back after
    each addition and after the two sums are combined, and the 16-bit
    result is complemented (before the escape of C8 is applied). *)
Theorem compute_checksum_is_ones_complement_sum (packet : Buffer.t)
    (field_cursor : Z) (fields : list (string * Buffer.t)) (position : Z)
    (buffer : Buffer.t) :
  _compute_checksum IPv6_HEADER_ID IPV4_HEADER_ID
    IPv6Fields_SRC_ADDRESS IPv4Fields_SRC_ADDRESS packet field_cursor fields position = Ok buffer ->
  exists id udp ph,
    py_index (map fst fields) (position - 4) = Ok id /\
    Buffer.slice_from packet (field_cursor - 48) = Ok udp /\
    pseudo_header_of IPv6_HEADER_ID IPV4_HEADER_ID
      IPv6Fields_SRC_ADDRESS IPv4Fields_SRC_ADDRESS id (map fst fields) (map snd fields) (position - 4)
      (octets (Buffer.length udp)) = Ok ph /\
    complemented_sum ph udp = Ok (Spec.checksum ph udp) /\
    checksum_buffer_of (Spec.checksum ph udp) = Ok buffer.
Proof.
  intro H. apply compute_checksum_trace in H as (id & udp & ph & H1 & H2 & H3 & H4 & H5 & _).
  exists id, udp, ph. auto.
Qed.

(** C8. The buffer that [_compute_checksum] returns holds the complemented
    sum over the pseudo-header and the UDP part of the call, with a
    complemented sum of 0x0000 replaced by 0xFFFF; so the 16-bit buffer
    returned is never all zeros. *)
Theorem compute_checksum_never_zero (packet : Buffer.t)
    (field_cursor : Z) (fields : list (string * Buffer.t)) (position : Z)
    (buffer : Buffer.t) :
  _compute_checksum IPv6_HEADER_ID IPV4_HEADER_ID
    IPv6Fields_SRC_ADDRESS IPv4Fields_SRC_ADDRESS packet field_cursor fields position = Ok buffer ->
  Buffer.length buffer = 16 /\
  buffer <> repeat false 16 /\
  Buffer.value buffer <> 0 /\
  exists id udp ph value,
    py_index (map fst fields) (position - 4) = Ok id /\
    Buffer.slice_from packet (field_cursor - 48) = Ok udp /\
    pseudo_header_of IPv6_HEADER_ID IPV4_HEADER_ID
      IPv6Fields_SRC_ADDRESS IPv4Fields_SRC_ADDRESS id (map fst fields) (map snd fields)
      (position - 4) (octets (Buffer.length udp)) = Ok ph /\
    complemented_sum ph udp = Ok value /\
    (value = 0x0000 -> buffer = repeat true 16) /\
    (value <> 0x0000 -> Buffer.value buffer = value).
Proof.
  intro H. apply compute_checksum_inv in H as (id & udp & ph & value & H1 & H2 & H3 & H4 & H5).
  apply checksum_buffer_of_inv in H5 as [Hr ->]. cbn zeta in Hr.
  assert (Buffer.value (Spec.be_bits 16 (if value =? 0 then 65535 else value)) =
          if value =? 0 then 65535 else value) as Hv
    by (apply be_bits_16_value; lia).
  split; [|split; [|split]].
  - unfold Buffer.length. now rewrite be_bits_length.
  - intro E. rewrite E in Hv. unfold Buffer.value in Hv.
    rewrite bits_value_repeat_false in Hv. lia.
  - rewrite Hv. lia.
  - exists id, udp, ph, value.
    split; [exact H1|]. split; [exact H2|]. split; [exact H3|]. split; [exact H4|].
    split.
    + intros ->. reflexivity.
    + intro Hne. rewrite Hv. apply Z.eqb_neq in Hne. now rewrite Hne.
Qed.

(** C10. When the field four rule positions before the checksum carries
    neither the IPv6 nor the IPv4 marker, no pseudo-header is ever bound
    and [_compute_checksum] raises instead of returning a buffer. *)
Theorem compute_checksum_without_network_layer (packet : Buffer.t)
    (field_cursor : Z) (fields : list (string * Buffer.t)) (position : Z)
    (id : string) :
  py_index (map fst fields) (position - 4) = Ok id ->
  str_in IPv6_HEADER_ID id = false ->
  str_in IPV4_HEADER_ID id = false ->
  (exists e, _compute_checksum IPv6_HEADER_ID IPV4_HEADER_ID
    IPv6Fields_SRC_ADDRESS IPv4Fields_SRC_ADDRESS packet field_cursor fields position = Raise e) /\
  (forall udp, Buffer.slice_from packet (field_cursor - 48) = Ok udp ->
     _compute_checksum IPv6_HEADER_ID IPV4_HEADER_ID
    IPv6Fields_SRC_ADDRESS IPv4Fields_SRC_ADDRESS packet field_cursor fields position = Raise UnboundLocalError).
Proof.
  intros Hid H6 H4. unfold _compute_checksum.
  rewrite Hid. cbn [bind].
  assert (forall udp,
            pseudo_header_of IPv6_HEADER_ID IPV4_HEADER_ID IPv6Fields_SRC_ADDRESS
              IPv4Fields_SRC_ADDRESS id (map fst fields) (map snd fields)
              (position - 4) (octets (Buffer.length udp)) = Raise UnboundLocalError) as Hph.
  { intro udp. unfold pseudo_header_of. now rewrite H6, H4. }
  split.
  - destruct (Buffer.slice_from packet (field_cursor - 48)) as [udp|e]; cbn [bind].
    + rewrite Hph. cbn [bind]. eauto.
    + eauto.
  - intros udp ->. cbn [bind]. rewrite Hph. reflexivity.
Qed.

(** The converse reading of C10: a call that returns found a marker. *)
Lemma compute_checksum_needs_network_layer (packet : Buffer.t)
    (field_cursor : Z) (fields : list (string * Buffer.t)) (position : Z)
    (buffer : Buffer.t) :
  _compute_checksum IPv6_HEADER_ID IPV4_HEADER_ID
    IPv6Fields_SRC_ADDRESS IPv4Fields_SRC_ADDRESS packet field_cursor fields position = Ok buffer ->
  exists id,
    py_index (map fst fields) (position - 4) = Ok id /\
    (str_in IPv6_HEADER_ID id = true \/ str_in IPV4_HEADER_ID id = true).
Proof.
  intro H. apply compute_checksum_inv in H as (id & udp & ph & value & H1 & _ & H3 & _).
  exists id. split; [exact H1|].
  unfold pseudo_header_of in H3.
  destruct (str_in IPv6_HEADER_ID id); [auto|].
  destruct (str_in IPV4_HEADER_ID id); [auto | discriminate].
Qed.

(** C5, as the code has it: the shape of the pseudo-header is read off
    the one field at index [rule_field_position - 4] of the context, with
    no scan: the IPv6 pseudo-header is built when that id contains the
    IPv6 marker, the IPv4 one when it contains the IPv4 marker and not
    the IPv6 one. *)
Theorem compute_checksum_shape (packet : Buffer.t)
    (field_cursor : Z) (fields : list (string * Buffer.t)) (position : Z)
    (buffer : Buffer.t) :
  _compute_checksum IPv6_HEADER_ID IPV4_HEADER_ID
    IPv6Fields_SRC_ADDRESS IPv4Fields_SRC_ADDRESS packet field_cursor fields position = Ok buffer ->
  exists id udp ph,
    py_index (map fst fields) (position - 4) = Ok id /\
    Buffer.slice_from packet (field_cursor - 48) = Ok udp /\
    complemented_sum ph udp = Ok (Spec.checksum ph udp) /\
    checksum_buffer_of (Spec.checksum ph udp) = Ok buffer /\
    ((str_in IPv6_HEADER_ID id = true /\
      ipv6_pseudo_header IPv6Fields_SRC_ADDRESS (map fst fields) (map snd fields)
        (position - 4) (octets (Buffer.length udp)) = Ok ph)
     \/
     (str_in IPv6_HEADER_ID id = false /\ str_in IPV4_HEADER_ID id = true /\
      ipv4_pseudo_header IPv4Fields_SRC_ADDRESS (map fst fields) (map snd fields)
        (position - 4) (octets (Buffer.length udp)) = Ok ph)).
Proof.
  intro H. apply compute_checksum_trace in H as (id & udp & ph & H1 & H2 & H3 & H4 & H5 & H6).
  exists id, udp, ph. auto.
Qed.

End ComputeChecksumProperties.

(** ** Python indexing *)

Lemma py_index_inv {A : Type} (l : list A) (i : Z) (a : A) :
  py_index l i = Ok a ->
  let j := if i <? 0 then i + Z.of_nat (List.length l) else i in
  0 <= j < Z.of_nat (List.length l) /\ nth_error l (Z.to_nat j) = Some a.
Proof.
  unfold py_index. cbn zeta.
  set (j := if i <? 0 then i + Z.of_nat (List.length l) else i).
  destruct (0 <=? j) eqn:E1; destruct (j <? Z.of_nat (List.length l)) eqn:E2;
    cbn [andb]; try discriminate.
  destruct (nth_error l (Z.to_nat j)) as [x|]; [|discriminate].
  intro H. inversion H. split; [lia | reflexivity].
Qed.

Lemma py_index_ok {A : Type} (l : list A) (i : Z) (a : A) :
  let j := if i <? 0 then i + Z.of_nat (List.length l) else i in
  0 <= j -> nth_error l (Z.to_nat j) = Some a -> py_index l i = Ok a.
Proof.
  cbn zeta. intros Hj Hn. unfold py_index.
  set (j := if i <? 0 then i + Z.of_nat (List.length l) else i) in *.
  assert (Z.to_nat j < List.length l)%nat
    by (apply nth_error_Some; rewrite Hn; discriminate).
  destruct (0 <=? j) eqn:E1; [|lia].
  destruct (j <? Z.of_nat (List.length l)) eqn:E2; [|lia].
  cbn [andb]. now rewrite Hn.
Qed.

(** The element found at offset [j] of [l[p:0:-1]] sits at index [p - j]. *)
Lemma py_slice_nth {A : Type} (l : list A) (p : Z) (last : A) (j : nat) (x : A) :
  py_index l p = Ok last ->
  nth_error (py_slice_down_to_1 l p) j = Some x ->
  py_index l (p - Z.of_nat j) = Ok x.
Proof.
  intros Hp Hn. apply py_index_inv in Hp as [Hs _]. cbn zeta in Hs.
  unfold py_slice_down_to_1 in Hn.
  set (len := Z.of_nat (List.length l)) in *.
  set (s := if p <? 0 then p + len else p) in *.
  destruct (s <? 0) eqn:E; [lia|].
  rewrite Z.min_l in Hn by lia.
  rewrite nth_error_rev in Hn.
  rewrite length_skipn, length_firstn in Hn.
  rewrite Nat.min_l in Hn by lia.
  destruct (j <? Z.to_nat (s + 1) - 1)%nat eqn:Ej; [|discriminate].
  apply Nat.ltb_lt in Ej.
  rewrite nth_error_skipn, nth_error_firstn in Hn.
  destruct (1 + (Z.to_nat (s + 1) - 1 - S j) <? Z.to_nat (s + 1))%nat eqn:Ek;
    [|discriminate].
  apply py_index_ok; fold len.
  - unfold s in *. destruct (p <? 0) eqn:E0; destruct (p - Z.of_nat j <? 0) eqn:E1; lia.
  - replace (Z.to_nat (if p - Z.of_nat j <? 0 then p - Z.of_nat j + len else p - Z.of_nat j))
      with (1 + (Z.to_nat (s + 1) - 1 - S j))%nat; [exact Hn|].
    unfold s in *. destruct (p <? 0) eqn:E0; destruct (p - Z.of_nat j <? 0) eqn:E1; lia.
Qed.

Lemma next_offset_found (target : string) (l : list string) :
  forall offset k, next_offset String.eqb target l offset = Ok k ->
  exists j, k = offset + Z.of_nat j /\ nth_error l j = Some target.
Proof.
  induction l as [|x l IH]; intros offset k H; [discriminate|].
  cbn [next_offset] in H. destruct (String.eqb x target) eqn:E.
  - apply String.eqb_eq in E. inversion H. subst. exists 0%nat. split; [lia | reflexivity].
  - apply IH in H as (j & -> & Hn). exists (S j). split; [lia | exact Hn].
Qed.

Lemma compact_is_ipv4_layout (source dest : list bool) (udp_length : Z) :
  Spec.compact_pseudo_header source dest udp_length =
  Spec.ipv4_pseudo_header source dest udp_length.
Proof. reflexivity. Qed.

Section PseudoHeader.

Variables IPv6_HEADER_ID IPV4_HEADER_ID : string.
Variables IPv6Fields_SRC_ADDRESS IPv4Fields_SRC_ADDRESS : string.

Lemma ipv6_pseudo_header_layout (ids : list string) (values : list Buffer.t)
    (p udp_length : Z) (last : string) (ph : Buffer.t) :
  py_index ids p = Ok last ->
  ipv6_pseudo_header IPv6Fields_SRC_ADDRESS ids values p udp_length = Ok ph ->
  exists i source dest,
    py_index ids i = Ok IPv6Fields_SRC_ADDRESS /\
    py_index values i = Ok source /\
    py_index values (i + 1) = Ok dest /\
    0 <= udp_length < 2 ^ 32 /\
    ph = Spec.compact_pseudo_header source dest udp_length.
Proof.
  intros Hp H. unfold ipv6_pseudo_header in H.
  apply bind_ok in H as (offset & Ho & H).
  apply bind_ok in H as (source & Hs & H).
  apply bind_ok in H as (dest & Hd & H).
  apply bind_ok in H as (content & Hc & H).
  apply to_bytes_inv in Hc as [Hr ->].
  apply next_offset_found in Ho as (j & -> & Hj).
  change (256 ^ Z.of_nat 4) with (2 ^ 32) in Hr.
  exists (p - (0 + Z.of_nat j)), source, dest.
  split; [|split; [exact Hs|split; [exact Hd|split; [exact Hr|]]]].
  - replace (p - (0 + Z.of_nat j)) with (p - Z.of_nat j) by lia.
    eapply py_slice_nth; eassumption.
  - apply Ok_inj in H. rewrite <- H, make_four_bytes, make_protocol_id.
    unfold Spec.compact_pseudo_header, Buffer.concat.
    now rewrite <- !app_assoc.
Qed.

Lemma ipv4_pseudo_header_layout (ids : list string) (values : list Buffer.t)
    (p udp_length : Z) (last : string) (ph : Buffer.t) :
  py_index ids p = Ok last ->
  ipv4_pseudo_header IPv4Fields_SRC_ADDRESS ids values p udp_length = Ok ph ->
  exists i source dest,
    py_index ids i = Ok IPv4Fields_SRC_ADDRESS /\
    py_index values i = Ok source /\
    py_index values (i + 1) = Ok dest /\
    0 <= udp_length < 2 ^ 16 /\
    ph = Spec.ipv4_pseudo_header source dest udp_length.
Proof.
  intros Hp H. unfold ipv4_pseudo_header in H.
  apply bind_ok in H as (offset & Ho & H).
  apply bind_ok in H as (source & Hs & H).
  apply bind_ok in H as (dest & Hd & H).
  apply bind_ok in H as (content & Hc & H).
  apply to_bytes_inv in Hc as [Hr ->].
  apply next_offset_found in Ho as (j & -> & Hj).
  change (256 ^ Z.of_nat 2) with (2 ^ 16) in Hr.
  exists (p - (0 + Z.of_nat j)), source, dest.
  split; [|split; [exact Hs|split; [exact Hd|split; [exact Hr|]]]].
  - replace (p - (0 + Z.of_nat j)) with (p - Z.of_nat j) by lia.
    eapply py_slice_nth; eassumption.
  - apply Ok_inj in H. rewrite <- H, make_two_bytes, make_protocol_id.
    unfold Spec.ipv4_pseudo_header, Buffer.concat.
    now rewrite <- !app_assoc.
Qed.

(** What both branches build: the value at the index [i] of the
    source-address field, the value at index [i + 1] (Python indexing both
    times: for [i = -1], the source address as last entry of the context,
    that is the first entry), a zero octet, the protocol 17 and the UDP
    length on 16 bits, in that order.  In the IPv4 branch this is the
    layout of the specification. *)
Lemma pseudo_header_layout (last : string) (ids : list string)
    (values : list Buffer.t) (p udp_length : Z) (ph : Buffer.t) :
  py_index ids p = Ok last ->
  pseudo_header_of IPv6_HEADER_ID IPV4_HEADER_ID IPv6Fields_SRC_ADDRESS
    IPv4Fields_SRC_ADDRESS last ids values p udp_length = Ok ph ->
  exists i source dest,
    py_index ids i =
      Ok (if str_in IPv6_HEADER_ID last then IPv6Fields_SRC_ADDRESS
          else IPv4Fields_SRC_ADDRESS) /\
    py_index values i = Ok source /\
    py_index values (i + 1) = Ok dest /\
    ph = source ++ dest ++ Spec.be_bits 8 0 ++ Spec.be_bits 8 17 ++
         Spec.be_bits 16 udp_length /\
    (str_in IPv6_HEADER_ID last = false ->
     0 <= udp_length < 2 ^ 16 /\
     ph = Spec.ipv4_pseudo_header source dest udp_length).
Proof.
  intros Hp H. unfold pseudo_header_of in H.
  destruct (str_in IPv6_HEADER_ID last) eqn:E6.
  - destruct (ipv6_pseudo_header_layout _ _ _ _ _ _ Hp H)
      as (i & source & dest & H1 & H2 & H3 & H4 & H5).
    exists i, source, dest.
    split; [exact H1|split; [exact H2|split; [exact H3|split; [exact H5|discriminate]]]].
  - destruct (str_in IPV4_HEADER_ID last) eqn:E4; [|discriminate].
    destruct (ipv4_pseudo_header_layout _ _ _ _ _ _ Hp H)
      as (i & source & dest & H1 & H2 & H3 & H4 & H5).
    exists i, source, dest.
    split; [exact H1|split; [exact H2|split; [exact H3|split; [exact H5|]]]].
    intros _. split; [exact H4 | exact H5].
Qed.

End PseudoHeader.

(** ** The compact pseudo-header and the one of the specification *)

Lemma words16_chunks (b : list bool) :
  (List.length b mod 16 = 0)%nat ->
  Spec.words16 b = map Buffer.value (Buffer.split_chunks (List.length b / 16) 16 b).
Proof.
  intro H. unfold Spec.words16. symmetry. apply split_chunks_digits.
  pose proof (Nat.div_mod_eq (List.length b) 16). lia.
Qed.

Lemma split_chunks_app (k : nat) :
  forall a b m, List.length a = (16 * k)%nat ->
  Buffer.split_chunks (k + m) 16 (a ++ b) =
  Buffer.split_chunks k 16 a ++ Buffer.split_chunks m 16 b.
Proof.
  induction k as [|k IH]; intros a b m Hlen.
  - destruct a; [reflexivity | discriminate].
  - cbn [Nat.add Buffer.split_chunks app].
    rewrite firstn_app, skipn_app.
    replace (16 - List.length a)%nat with 0%nat by lia.
    rewrite firstn_O, skipn_O, app_nil_r. cbn [app].
    apply (f_equal (cons (firstn 16 a))).
    apply IH. rewrite length_skipn. lia.
Qed.

Lemma words16_app (a b : list bool) :
  (List.length a mod 16 = 0)%nat -> (List.length b mod 16 = 0)%nat ->
  Spec.words16 (a ++ b) = Spec.words16 a ++ Spec.words16 b.
Proof.
  intros Ha Hb.
  pose proof (Nat.div_mod_eq (List.length a) 16) as Ea.
  pose proof (Nat.div_mod_eq (List.length b) 16) as Eb.
  rewrite !words16_chunks; try assumption.
  - rewrite length_app.
    replace ((List.length a + List.length b) / 16)%nat
      with (List.length a / 16 + List.length b / 16)%nat.
    + rewrite split_chunks_app by lia. apply map_app.
    + replace (List.length a + List.length b)%nat
        with ((List.length a / 16 + List.length b / 16) * 16)%nat by lia.
      now rewrite Nat.div_mul by lia.
  - rewrite length_app.
    replace (List.length a + List.length b)%nat
      with ((List.length a / 16 + List.length b / 16) * 16)%nat by lia.
    apply Nat.Div0.mod_mul.
Qed.

Lemma words16_be_bits_16 (z : Z) :
  0 <= z < 2 ^ 16 -> Spec.words16 (Spec.be_bits 16 z) = [z].
Proof.
  intro Hz. rewrite words16_chunks by (rewrite be_bits_length; reflexivity).
  rewrite be_bits_length. cbn [Nat.div Nat.divmod fst Buffer.split_chunks map].
  rewrite firstn_all2 by (rewrite be_bits_length; lia).
  now rewrite be_bits_16_value.
Qed.

Lemma be_bits_split (high low : nat) :
  forall z, Spec.be_bits (high + low) z =
  Spec.be_bits high (z / 2 ^ Z.of_nat low) ++ Spec.be_bits low z.
Proof.
  intro z. apply bits_value_inj.
  - now rewrite length_app, !be_bits_length.
  - rewrite bits_value_app, !be_bits_value, be_bits_length.
    rewrite Nat2Z.inj_add, Z.pow_add_r by lia.
    pose proof (Z.pow_pos_nonneg 2 (Z.of_nat low) ltac:(lia) ltac:(lia)).
    pose proof (Z.pow_pos_nonneg 2 (Z.of_nat high) ltac:(lia) ltac:(lia)).
    rewrite (Z.mul_comm (2 ^ Z.of_nat high)), Z.rem_mul_r by lia. ring.
Qed.

Lemma end_around_carry_cases (s : Z) :
  0 <= s <= 0x1fffe ->
  (s < 65536 /\ Spec.end_around_carry s = s) \/
  (65536 <= s /\ Spec.end_around_carry s = s - 65535).
Proof.
  intro Hs. unfold Spec.end_around_carry. change (2 ^ 16) with 65536.
  assert (s < 65536 \/ 65536 <= s) as [H|H] by lia; [left|right];
    (split; [exact H|]); Z.div_mod_to_equations; lia.
Qed.

Lemma ones_complement_sum_app (l1 l2 : list Z) :
  Spec.ones_complement_sum (l1 ++ l2) =
  fold_left (fun sum word => Spec.end_around_carry (sum + word)) l2
    (Spec.ones_complement_sum l1).
Proof. unfold Spec.ones_complement_sum. apply fold_left_app. Qed.

Lemma words16_bounds (b : list bool) :
  (List.length b mod 16 = 0)%nat ->
  Forall (fun w => 0 <= w <= 0xffff) (Spec.words16 b).
Proof.
  intro H. rewrite words16_chunks by exact H.
  apply Forall_map.
  eapply Forall_impl; [|apply split_chunks_short].
  intros c Hc. apply chunk_value_bounds. exact Hc.
Qed.

Lemma ones_complement_sum_bounds (words : list Z) :
  Forall (fun w => 0 <= w <= 0xffff) words ->
  forall sum, 0 <= sum <= 0xffff ->
  0 <= fold_left (fun sum word => Spec.end_around_carry (sum + word)) words sum <= 0xffff.
Proof.
  induction 1 as [|w words Hw _ IH]; intros sum Hs; [exact Hs|].
  cbn [fold_left]. apply IH.
  destruct (end_around_carry_cases (sum + w) ltac:(lia)) as [[? ->]|[? ->]]; lia.
Qed.

(** For a UDP length that fits 16 bits the pseudo-header that the code
    builds has the checksum of the IPv6 pseudo-header of the
    specification: the words 0 add nothing and the sum does not depend on
    the order of the words. *)
Lemma compact_pseudo_header_same_checksum (source dest udp : list bool)
    (udp_length : Z) :
  (List.length source mod 16 = 0)%nat -> (List.length dest mod 16 = 0)%nat ->
  0 <= udp_length < 2 ^ 16 ->
  Spec.checksum (Spec.compact_pseudo_header source dest udp_length) udp =
  Spec.checksum (Spec.ipv6_pseudo_header source dest udp_length) udp.
Proof.
  intros Hs Hd Hl. unfold Spec.checksum. do 3 f_equal.
  unfold Spec.compact_pseudo_header, Spec.ipv6_pseudo_header.
  change (Spec.be_bits 8 0 ++ Spec.be_bits 8 17 ++ Spec.be_bits 16 udp_length)
    with (Spec.be_bits 16 17 ++ Spec.be_bits 16 udp_length).
  change (Spec.be_bits 24 0 ++ Spec.be_bits 8 17)
    with (Spec.be_bits 16 0 ++ Spec.be_bits 16 17).
  change (Spec.be_bits 32 udp_length) with (Spec.be_bits (16 + 16) udp_length).
  rewrite (be_bits_split 16 16 udp_length).
  change (2 ^ Z.of_nat 16) with (2 ^ 16).
  rewrite (Z.div_small udp_length) by exact Hl.
  rewrite !app_assoc.
  assert (List.length (source ++ dest) mod 16 = 0)%nat as Hsd.
  { rewrite length_app.
    pose proof (Nat.div_mod_eq (List.length source) 16).
    pose proof (Nat.div_mod_eq (List.length dest) 16).
    replace (List.length source + List.length dest)%nat
      with ((List.length source / 16 + List.length dest / 16) * 16)%nat by lia.
    apply Nat.Div0.mod_mul. }
  set (addresses := source ++ dest) in *.
  rewrite <- !app_assoc.
  rewrite !words16_app;
    try (rewrite ?length_app, !be_bits_length; reflexivity); try exact Hsd.
  rewrite !words16_be_bits_16 by (change (2 ^ 16) with 65536 in *; lia).
  cbn [app]. rewrite !ones_complement_sum_app. cbn [fold_left].
  pose proof (ones_complement_sum_bounds _ (words16_bounds addresses Hsd) 0 ltac:(lia)) as Hb.
  fold (Spec.ones_complement_sum (Spec.words16 addresses)) in Hb.
  set (s := Spec.ones_complement_sum (Spec.words16 addresses)) in *.
  change (2 ^ 16) with 65536 in Hl.
  repeat match goal with
         | |- context [Spec.end_around_carry ?x] =>
             lazymatch x with
             | context [Spec.end_around_carry _] => fail
             | _ => destruct (end_around_carry_cases x ltac:(lia)) as [[? ->]|[? ->]]
             end
         end; lia.
Qed.

(** ** The compute functions on concrete contexts *)

Lemma compute_checksum_is_ones_complement_sum_witness :
  exists id udp ph,
    py_index (map fst FixtureContext.decompressed_fields) (11 - 4) = Ok id /\
    Buffer.slice_from FixtureContext.packet (368 - 48) = Ok udp /\
    pseudo_header_of IPv6_HEADER_ID IPV4_HEADER_ID IPv6Fields.SRC_ADDRESS
      IPv4Fields.SRC_ADDRESS id (map fst FixtureContext.decompressed_fields)
      (map snd FixtureContext.decompressed_fields) (11 - 4)
      (octets (Buffer.length udp)) = Ok ph /\
    complemented_sum ph udp = Ok (Spec.checksum ph udp) /\
    checksum_buffer_of (Spec.checksum ph udp) = Ok (Spec.be_bits 16 0x690e).
Proof.
  apply (compute_checksum_is_ones_complement_sum
           IPv6_HEADER_ID IPV4_HEADER_ID IPv6Fields.SRC_ADDRESS IPv4Fields.SRC_ADDRESS
           FixtureContext.packet 368 FixtureContext.decompressed_fields 11).
  vm_compute. reflexivity.
Defined.

(** On the datagram of [EscapeContext] the complemented sum is 0 and the
    buffer returned holds 0xFFFF. *)
Lemma compute_checksum_never_zero_witness :
  Buffer.length (Spec.be_bits 16 0xffff) = 16 /\
  Spec.be_bits 16 0xffff <> repeat false 16 /\
  Buffer.value (Spec.be_bits 16 0xffff) <> 0 /\
  exists id udp ph value,
    py_index (map fst EscapeContext.decompressed_fields) (6 - 4) = Ok id /\
    Buffer.slice_from EscapeContext.packet (120 - 48) = Ok udp /\
    pseudo_header_of IPv6_HEADER_ID IPV4_HEADER_ID
      IPv6Fields.SRC_ADDRESS IPv4Fields.SRC_ADDRESS id
      (map fst EscapeContext.decompressed_fields)
      (map snd EscapeContext.decompressed_fields)
      (6 - 4) (octets (Buffer.length udp)) = Ok ph /\
    complemented_sum ph udp = Ok value /\
    (value = 0x0000 -> Spec.be_bits 16 0xffff = repeat true 16) /\
    (value <> 0x0000 -> Buffer.value (Spec.be_bits 16 0xffff) = value).
Proof.
  apply (compute_checksum_never_zero
           IPv6_HEADER_ID IPV4_HEADER_ID IPv6Fields.SRC_ADDRESS IPv4Fields.SRC_ADDRESS
           EscapeContext.packet 120 EscapeContext.decompressed_fields 6).
  vm_compute. reflexivity.
Defined.

Lemma escape_context_sum_is_zero :
  exists udp ph,
    Buffer.slice_from EscapeContext.packet (120 - 48) = Ok udp /\
    ipv4_pseudo_header IPv4Fields.SRC_ADDRESS
      (map fst EscapeContext.decompressed_fields)
      (map snd EscapeContext.decompressed_fields) 2 8 = Ok ph /\
    complemented_sum ph udp = Ok 0 /\
    FixtureContext.compute_checksum EscapeContext.packet 120
      EscapeContext.decompressed_fields 6 = Ok (Spec.be_bits 16 0xffff).
Proof.
  do 2 eexists. repeat split; vm_compute; reflexivity.
Qed.

Lemma compute_checksum_without_network_layer_witness :
  (exists e, FixtureContext.compute_checksum ExtensionContext.packet 376
               ExtensionContext.decompressed_fields 12 = Raise e) /\
  (forall udp, Buffer.slice_from ExtensionContext.packet (376 - 48) = Ok udp ->
     FixtureContext.compute_checksum ExtensionContext.packet 376
       ExtensionContext.decompressed_fields 12 = Raise UnboundLocalError).
Proof.
  apply (compute_checksum_without_network_layer
           IPv6_HEADER_ID IPV4_HEADER_ID IPv6Fields.SRC_ADDRESS IPv4Fields.SRC_ADDRESS
           ExtensionContext.packet 376 ExtensionContext.decompressed_fields 12
           "Ext:Next Header"%string).
  - vm_compute. reflexivity.
  - vm_compute. reflexivity.
  - vm_compute. reflexivity.
Defined.

Lemma compute_checksum_shape_witness :
  exists id udp ph,
    py_index (map fst FixtureContext.decompressed_fields) (11 - 4) = Ok id /\
    Buffer.slice_from FixtureContext.packet (368 - 48) = Ok udp /\
    complemented_sum ph udp = Ok (Spec.checksum ph udp) /\
    checksum_buffer_of (Spec.checksum ph udp) = Ok (Spec.be_bits 16 0x690e) /\
    ((str_in IPv6_HEADER_ID id = true /\
      ipv6_pseudo_header IPv6Fields.SRC_ADDRESS
        (map fst FixtureContext.decompressed_fields)
        (map snd FixtureContext.decompressed_fields)
        (11 - 4) (octets (Buffer.length udp)) = Ok ph)
     \/
     (str_in IPv6_HEADER_ID id = false /\ str_in IPV4_HEADER_ID id = true /\
      ipv4_pseudo_header IPv4Fields.SRC_ADDRESS
        (map fst FixtureContext.decompressed_fields)
        (map snd FixtureContext.decompressed_fields)
        (11 - 4) (octets (Buffer.length udp)) = Ok ph)).
Proof.
  apply (compute_checksum_shape
           IPv6_HEADER_ID IPV4_HEADER_ID IPv6Fields.SRC_ADDRESS IPv4Fields.SRC_ADDRESS
           FixtureContext.packet 368 FixtureContext.decompressed_fields 11).
  vm_compute. reflexivity.
Defined.

(** C5 as the specification states it fails on the context of
    [ExtensionContext]: scanning backward from the checksum's position 12
    finds the IPv6 destination address as the last field of the network
    layer, yet the code looks at index 8 only, finds neither marker there
    and raises. *)
Lemma shape_is_not_found_by_scanning :
  Spec.last_network_field IPv6_HEADER_ID IPV4_HEADER_ID
    (map fst ExtensionContext.decompressed_fields) 12 = Some IPv6Fields.DST_ADDRESS /\
  str_in IPv6_HEADER_ID IPv6Fields.DST_ADDRESS = true /\
  FixtureContext.compute_checksum ExtensionContext.packet 376
    ExtensionContext.decompressed_fields 12 = Raise UnboundLocalError.
Proof.
  repeat split; vm_compute; reflexivity.
Qed.

Lemma pseudo_header_layout_witness :
  exists i source dest,
    py_index (map fst FixtureContext.decompressed_fields) i =
      Ok (if str_in IPv6_HEADER_ID IPv6Fields.DST_ADDRESS
          then IPv6Fields.SRC_ADDRESS else IPv4Fields.SRC_ADDRESS) /\
    py_index (map snd FixtureContext.decompressed_fields) i = Ok source /\
    py_index (map snd FixtureContext.decompressed_fields) (i + 1) = Ok dest /\
    FixtureContext.bits 64 192 ++ FixtureContext.bits 192 320 ++
      Spec.be_bits 16 17 ++ Spec.be_bits 16 104 =
      source ++ dest ++ Spec.be_bits 8 0 ++ Spec.be_bits 8 17 ++ Spec.be_bits 16 104 /\
    (str_in IPv6_HEADER_ID IPv6Fields.DST_ADDRESS = false ->
     0 <= 104 < 2 ^ 16 /\
     FixtureContext.bits 64 192 ++ FixtureContext.bits 192 320 ++
       Spec.be_bits 16 17 ++ Spec.be_bits 16 104 =
       Spec.ipv4_pseudo_header source dest 104).
Proof.
  apply (pseudo_header_layout
           IPv6_HEADER_ID IPV4_HEADER_ID IPv6Fields.SRC_ADDRESS IPv4Fields.SRC_ADDRESS
           IPv6Fields.DST_ADDRESS
           (map fst FixtureContext.decompressed_fields)
           (map snd FixtureContext.decompressed_fields) 7 104).
  - vm_compute. reflexivity.
  - vm_compute. reflexivity.
Defined.

(** C3. The claim, like the docstring of [_compute_checksum], lays the IPv6
    pseudo-header out as source, destination, UDP length on 32 bits, 24
    zero bits and the next header 17: 320 bits.  On the fixture's IPv6
    context (the checksum at rule position 11, a UDP part of 104 octets)
    the call returns, and the pseudo-header that it builds and sums is the
    source address, the destination address, the word 0x0011 and the
    length on 16 bits: 288 bits, the next-header word before the length. *)
Theorem ipv6_pseudo_header_is_not_the_specified_one :
  py_index (map fst FixtureContext.decompressed_fields) (11 - 4) =
    Ok IPv6Fields.DST_ADDRESS /\
  str_in IPv6_HEADER_ID IPv6Fields.DST_ADDRESS = true /\
  (exists udp,
     Buffer.slice_from FixtureContext.packet (368 - 48) = Ok udp /\
     octets (Buffer.length udp) = 104) /\
  pseudo_header_of IPv6_HEADER_ID IPV4_HEADER_ID IPv6Fields.SRC_ADDRESS
    IPv4Fields.SRC_ADDRESS IPv6Fields.DST_ADDRESS
    (map fst FixtureContext.decompressed_fields)
    (map snd FixtureContext.decompressed_fields) (11 - 4) 104 =
    Ok (FixtureContext.bits 64 192 ++ FixtureContext.bits 192 320 ++
        Spec.be_bits 16 0x0011 ++ Spec.be_bits 16 104) /\
  Buffer.length (FixtureContext.bits 64 192 ++ FixtureContext.bits 192 320 ++
                 Spec.be_bits 16 0x0011 ++ Spec.be_bits 16 104) = 288 /\
  Buffer.length (Spec.ipv6_pseudo_header (FixtureContext.bits 64 192)
                   (FixtureContext.bits 192 320) 104) = 320 /\
  FixtureContext.bits 64 192 ++ FixtureContext.bits 192 320 ++
    Spec.be_bits 16 0x0011 ++ Spec.be_bits 16 104 <>
  Spec.ipv6_pseudo_header (FixtureContext.bits 64 192)
    (FixtureContext.bits 192 320) 104 /\
  FixtureContext.compute_checksum FixtureContext.packet 368
    FixtureContext.decompressed_fields 11 = Ok (Spec.be_bits 16 0x690e).
Proof.
  split; [vm_compute; reflexivity|].
  split; [vm_compute; reflexivity|].
  split; [eexists; split; vm_compute; reflexivity|].
  split; [vm_compute; reflexivity|].
  split; [reflexivity|]. split; [reflexivity|].
  split; [|vm_compute; reflexivity].
  intro H. apply (f_equal (@List.length bool)) in H. vm_compute in H. discriminate H.
Qed.

(** On the fixture the two pseudo-headers have the same checksum. *)
Lemma fixture_checksum_agrees_with_specified_pseudo_header :
  Spec.checksum
    (Spec.ipv6_pseudo_header (FixtureContext.bits 64 192)
       (FixtureContext.bits 192 320) 104)
    (skipn 320 FixtureContext.packet) = 0x690e /\
  FixtureContext.compute_checksum FixtureContext.packet 368
    FixtureContext.decompressed_fields 11 = Ok (Spec.be_bits 16 0x690e).
Proof.
  split; vm_compute; reflexivity.
Qed.

(** ** The decompressor on the fixture *)

Lemma valid_stack_packet_length : List.length Fixture.valid_stack_packet = 144%nat.
Proof. reflexivity. Qed.

(** C1, with the fixture's own numbers: the fixture's rule has a 2-bit id
    and no COMPUTE action, its SCHC packet has 828 bits and its packet is
    144 octets long; decompressing the SCHC packet with the rule,
    direction UP, gives a packet whose content is that packet byte for
    byte. *)
Theorem decompress_fixture_exact :
  Buffer.length (rule_id Fixture.rule_descriptor_1) = 2 /\
  forallb (fun rf => match rf_compression_decompression_action rf with
                     | COMPUTE => false
                     | _ => true
                     end) (field_descriptors Fixture.rule_descriptor_1) = true /\
  Buffer.length Fixture.schc_packet = 828 /\
  List.length Fixture.valid_stack_packet = 144%nat /\
  decompress Fixture.compute_functions Fixture.schc_packet UP
    Fixture.rule_descriptor_1 = Ok Fixture.valid_buffer /\
  Buffer.content Fixture.valid_buffer Buffer.RIGHT = Fixture.valid_stack_packet.
Proof.
  split; [reflexivity|]. split; [reflexivity|].
  split; [reflexivity|]. split; [reflexivity|].
  split; vm_compute; reflexivity.
Qed.

(** C1 as the specification states it fails on two counts: the packet that
    the test expects, and that the decompressor returns, has 144 octets,
    not 152, and no field of the fixture's rule has the COMPUTE action. *)
Lemma fixture_packet_is_not_152_octets :
  ~ (exists packet,
       Fixture.decompressed_packet = Ok packet /\
       List.length (Buffer.content packet Buffer.RIGHT) = 152%nat) /\
  List.length Fixture.valid_stack_packet <> 152%nat /\
  existsb (fun rf => match rf_compression_decompression_action rf with
                     | COMPUTE => true
                     | _ => false
                     end) (field_descriptors Fixture.rule_descriptor_1) = false.
Proof.
  split; [|split].
  - intros (packet & H1 & H2).
    vm_compute in H1. apply Ok_inj in H1. subst packet.
    vm_compute in H2. discriminate H2.
  - vm_compute. discriminate.
  - reflexivity.
Qed.

(** * Further properties of udp.py *)

(** ** More on the UDP parser *)

Lemma firstn_plus {A : Type} (a b : nat) (l : list A) :
  firstn (a + b) l = firstn a l ++ firstn b (skipn a l).
Proof.
  revert l. induction a as [|a IH]; intro l; [reflexivity|].
  destruct l as [|x l]; cbn [Nat.add firstn skipn app].
  - now rewrite firstn_nil.
  - now rewrite IH.
Qed.

Lemma bit_range_app (b : list bool) (i j k : nat) :
  (i <= j <= k)%nat ->
  Spec.bit_range b i j ++ Spec.bit_range b j k = Spec.bit_range b i k.
Proof.
  intro H. unfold Spec.bit_range.
  replace (k - i)%nat with ((j - i) + (k - j))%nat by lia.
  rewrite firstn_plus, skipn_skipn.
  now replace (j - i + i)%nat with j by lia.
Qed.

Lemma parse_inv (buffer : Buffer.t) (header : HeaderDescriptor) :
  UDPParser.parse buffer = Ok header ->
  64 <= Buffer.length buffer /\ header = Spec.udp_header buffer.
Proof.
  intro H.
  destruct (Z.lt_ge_cases (Buffer.length buffer) 64) as [Hs|Hl].
  - rewrite parse_short in H by exact Hs. discriminate.
  - rewrite parse_long in H by exact Hl. apply Ok_inj in H. auto.
Qed.

(** X1. The values of the four fields that [UDPParser.parse] returns,
    put end to end, are the first 64 bits of the buffer, and the header
    length that it reports is the number of those bits. *)
Theorem parse_fields_cover_header (buffer : Buffer.t) (header : HeaderDescriptor) :
  UDPParser.parse buffer = Ok header ->
  List.concat (map fd_value (hd_fields header)) = firstn 64 buffer /\
  hd_length header = Buffer.length (List.concat (map fd_value (hd_fields header))).
Proof.
  intro H. apply parse_inv in H as [Hlen ->].
  assert (List.concat (map fd_value (hd_fields (Spec.udp_header buffer))) =
          firstn 64 buffer) as E.
  { cbn [Spec.udp_header hd_fields map fd_value List.concat]. rewrite app_nil_r.
    rewrite (bit_range_app buffer 32 48 64) by lia.
    rewrite (bit_range_app buffer 16 32 64) by lia.
    rewrite (bit_range_app buffer 0 16 64) by lia.
    reflexivity. }
  split; [exact E|].
  rewrite E. unfold Buffer.length in *. rewrite length_firstn.
  cbn [Spec.udp_header hd_length]. lia.
Qed.

Lemma parse_fields_cover_header_witness :
  List.concat (map fd_value (hd_fields (Spec.udp_header (repeat true 70)))) =
    firstn 64 (repeat true 70) /\
  hd_length (Spec.udp_header (repeat true 70)) =
    Buffer.length (List.concat (map fd_value (hd_fields (Spec.udp_header (repeat true 70))))).
Proof.
  apply (parse_fields_cover_header (repeat true 70)).
  vm_compute. reflexivity.
Defined.

Lemma bit_range_middle (a x b : list bool) (i j : nat) :
  List.length a = i -> (i + List.length x)%nat = j ->
  Spec.bit_range (a ++ x ++ b) i j = x.
Proof.
  intros <- <-. unfold Spec.bit_range.
  rewrite skipn_app, skipn_all, Nat.sub_diag, skipn_O. cbn [app].
  replace (List.length a + List.length x - List.length a)%nat
    with (List.length x + 0)%nat by lia.
  rewrite firstn_app_2, firstn_O. apply app_nil_r.
Qed.

(** X2. Parsing the concatenation of a 16-bit source port, destination
    port, length and checksum, followed by any payload, gives back exactly
    these four values. *)
Theorem parse_of_concatenation (source_port destination_port length checksum
    payload : Buffer.t) :
  List.length source_port = 16%nat -> List.length destination_port = 16%nat ->
  List.length length = 16%nat -> List.length checksum = 16%nat ->
  UDPParser.parse (source_port +++ destination_port +++ length +++ checksum +++ payload) =
    Ok {| hd_id := UDP_HEADER_ID;
          hd_length := 64;
          hd_fields := [
            {| fd_id := UDPFields.SOURCE_PORT; fd_position := 0;
               fd_value := source_port |};
            {| fd_id := UDPFields.DESTINATION_PORT; fd_position := 0;
               fd_value := destination_port |};
            {| fd_id := UDPFields.LENGTH; fd_position := 0; fd_value := length |};
            {| fd_id := UDPFields.CHECKSUM; fd_position := 0;
               fd_value := checksum |} ] |}.
Proof.
  intros H1 H2 H3 H4. unfold Buffer.concat. rewrite <- !app_assoc.
  rewrite parse_long
    by (unfold Buffer.length; rewrite !length_app; lia).
  unfold Spec.udp_header.
  set (buffer := source_port ++ destination_port ++ length ++ checksum ++ payload).
  assert (Spec.bit_range buffer 0 16 = source_port) as ->.
  { apply (bit_range_middle [] source_port); [reflexivity | lia]. }
  assert (Spec.bit_range buffer 16 32 = destination_port) as ->.
  { apply (bit_range_middle source_port destination_port); lia. }
  assert (Spec.bit_range buffer 32 48 = length) as ->.
  { unfold buffer. rewrite (app_assoc source_port).
    apply bit_range_middle; [rewrite length_app|]; lia. }
  assert (Spec.bit_range buffer 48 64 = checksum) as ->.
  { unfold buffer. rewrite (app_assoc source_port), (app_assoc (source_port ++ _)).
    apply bit_range_middle; [rewrite !length_app|]; lia. }
  reflexivity.
Qed.

Lemma parse_of_concatenation_witness :
  UDPParser.parse (Spec.be_bits 16 0xd100 +++ Spec.be_bits 16 0x1633 +++
                   Spec.be_bits 16 9 +++ Spec.be_bits 16 0 +++ [true; false; true]) =
    Ok {| hd_id := UDP_HEADER_ID;
          hd_length := 64;
          hd_fields := [
            {| fd_id := UDPFields.SOURCE_PORT; fd_position := 0;
               fd_value := Spec.be_bits 16 0xd100 |};
            {| fd_id := UDPFields.DESTINATION_PORT; fd_position := 0;
               fd_value := Spec.be_bits 16 0x1633 |};
            {| fd_id := UDPFields.LENGTH; fd_position := 0;
               fd_value := Spec.be_bits 16 9 |};
            {| fd_id := UDPFields.CHECKSUM; fd_position := 0;
               fd_value := Spec.be_bits 16 0 |} ] |}.
Proof.
  apply parse_of_concatenation; reflexivity.
Defined.

(** ** More on [_compute_length] *)

Lemma compute_length_cases (packet : Buffer.t) (field_cursor : Z)
    (fields : list (string * Buffer.t)) (position : Z) :
  32 <= field_cursor <= Buffer.length packet + 32 ->
  let n := Buffer.length packet - (field_cursor - 32) in
  _compute_length packet field_cursor fields position =
    if Spec.ceil8 n <? 2 ^ 16 then Ok (Spec.be_bits 16 (Spec.ceil8 n))
    else Raise OverflowError.
Proof.
  intros Hc n. unfold _compute_length.
  rewrite slice_from_ok by lia. cbn [bind].
  rewrite skipn_length_Z by lia. fold n. rewrite octets_ceil8.
  assert (0 <= Spec.ceil8 n) by (unfold Spec.ceil8; apply Z.div_pos; lia).
  unfold to_bytes. change (256 ^ Z.of_nat 2) with (2 ^ 16).
  destruct (0 <=? Spec.ceil8 n) eqn:E; [|lia].
  destruct (Spec.ceil8 n <? 2 ^ 16); cbn [andb bind]; [|reflexivity].
  now rewrite make_two_bytes.
Qed.

(** X3. With the cursor at least 32 bits into the packet,
    [_compute_length] raises OverflowError exactly when more than 524280
    bits (65535 octets) lie between the start of the UDP header and the end
    of the packet; otherwise it returns. *)
Theorem compute_length_overflow_iff (packet : Buffer.t) (field_cursor : Z)
    (fields : list (string * Buffer.t)) (position : Z) :
  32 <= field_cursor <= Buffer.length packet + 32 ->
  (_compute_length packet field_cursor fields position = Raise OverflowError <->
   524280 < Buffer.length packet - (field_cursor - 32)) /\
  ((exists buffer, _compute_length packet field_cursor fields position = Ok buffer) <->
   Buffer.length packet - (field_cursor - 32) <= 524280).
Proof.
  intro Hc. rewrite compute_length_cases by exact Hc. cbn zeta.
  set (n := Buffer.length packet - (field_cursor - 32)).
  assert (Spec.ceil8 n < 2 ^ 16 <-> n <= 524280) as Hiff.
  { unfold Spec.ceil8. change (2 ^ 16) with 65536.
    split; intro; Z.div_mod_to_equations; lia. }
  destruct (Spec.ceil8 n <? 2 ^ 16) eqn:E.
  - apply Z.ltb_lt in E. apply Hiff in E. split; split; intro H.
    + discriminate.
    + lia.
    + exact E.
    + eauto.
  - apply Z.ltb_ge in E. assert (524280 < n) by (destruct Hiff; lia).
    split; split; intro H'.
    + assumption.
    + reflexivity.
    + destruct H' as [b Hb]. discriminate.
    + lia.
Qed.

Lemma compute_length_overflow_iff_witness :
  (_compute_length (repeat true 100) 40 [] 0 = Raise OverflowError <->
   524280 < Buffer.length (repeat true 100) - (40 - 32)) /\
  ((exists buffer, _compute_length (repeat true 100) 40 [] 0 = Ok buffer) <->
   Buffer.length (repeat true 100) - (40 - 32) <= 524280).
Proof.
  apply (compute_length_overflow_iff (repeat true 100) 40 [] 0).
  vm_compute. split; discriminate.
Defined.

(** X4. [_compute_length] looks at nothing but the number of bits from the
    start of the UDP header on: two calls with as many bits behind
    [field_cursor - 32] agree, whatever the packets hold and whatever
    context and position they are given. *)
Theorem compute_length_depends_on_size_only (packet1 packet2 : Buffer.t)
    (cursor1 cursor2 : Z) (fields1 fields2 : list (string * Buffer.t))
    (position1 position2 : Z) :
  32 <= cursor1 <= Buffer.length packet1 + 32 ->
  32 <= cursor2 <= Buffer.length packet2 + 32 ->
  Buffer.length packet1 - cursor1 = Buffer.length packet2 - cursor2 ->
  _compute_length packet1 cursor1 fields1 position1 =
  _compute_length packet2 cursor2 fields2 position2.
Proof.
  intros H1 H2 E. rewrite !compute_length_cases by assumption. cbn zeta.
  now replace (Buffer.length packet1 - (cursor1 - 32))
    with (Buffer.length packet2 - (cursor2 - 32)) by lia.
Qed.

Lemma compute_length_depends_on_size_only_witness :
  _compute_length (repeat true 100) 40 [] 0 =
  _compute_length (repeat false 110) 50 [("UDP:Length"%string, [true])] 7.
Proof.
  apply compute_length_depends_on_size_only.
  - vm_compute. split; discriminate.
  - vm_compute. split; discriminate.
  - reflexivity.
Defined.

(** ** The arithmetic of the checksum *)

Lemma representative_range (sum : Z) :
  0 <= sum -> 0 <= Words.representative sum <= 65535 /\
              (Words.representative sum = 0 <-> sum = 0).
Proof.
  intro H. unfold Words.representative.
  destruct (sum =? 0) eqn:E.
  - apply Z.eqb_eq in E. lia.
  - apply Z.eqb_neq in E.
    pose proof (Z.mod_pos_bound (sum - 1) 65535 ltac:(lia)). lia.
Qed.

Lemma representative_small (word : Z) :
  0 <= word <= 65535 -> Words.representative word = word.
Proof.
  intro H. unfold Words.representative.
  destruct (word =? 0) eqn:E.
  - apply Z.eqb_eq in E. lia.
  - apply Z.eqb_neq in E. rewrite Z.mod_small by lia. lia.
Qed.

(** Adding with end-around carry is adding the sums behind the
    representatives. *)
Lemma carry_representatives (x y : Z) :
  0 <= x -> 0 <= y ->
  Spec.end_around_carry (Words.representative x + Words.representative y) =
  Words.representative (x + y).
Proof.
  intros Hx Hy.
  destruct (representative_range x Hx) as [Rx Zx].
  destruct (representative_range y Hy) as [Ry Zy].
  destruct (end_around_carry_cases
              (Words.representative x + Words.representative y) ltac:(lia))
    as [[Hs ->]|[Hs ->]];
    unfold Words.representative in *;
    destruct (x =? 0) eqn:Ex; destruct (y =? 0) eqn:Ey;
    destruct (x + y =? 0) eqn:Exy;
    rewrite ?Z.eqb_eq, ?Z.eqb_neq in *; try lia;
    Z.div_mod_to_equations; lia.
Qed.

Lemma total_app (l1 l2 : list Z) :
  Words.total (l1 ++ l2) = Words.total l1 + Words.total l2.
Proof.
  unfold Words.total. induction l1 as [|w l1 IH]; cbn [app fold_right]; lia.
Qed.

Lemma total_nonneg (words : list Z) :
  Forall (fun w => 0 <= w <= 0xffff) words -> 0 <= Words.total words.
Proof.
  unfold Words.total. induction 1 as [|w words Hw _ IH]; cbn [fold_right]; lia.
Qed.

Lemma ones_complement_sum_from (words : list Z) :
  Forall (fun w => 0 <= w <= 0xffff) words ->
  forall sum, 0 <= sum ->
  fold_left (fun sum word => Spec.end_around_carry (sum + word)) words
    (Words.representative sum) =
  Words.representative (sum + Words.total words).
Proof.
  induction 1 as [|w words Hw Hws IH]; intros sum Hs.
  - cbn. now rewrite Z.add_0_r.
  - cbn [fold_left]. rewrite <- (representative_small w) at 1 by lia.
    rewrite carry_representatives by lia.
    rewrite IH by lia. f_equal. unfold Words.total. cbn [fold_right]. lia.
Qed.

(** The one's complement sum of a list of words is the representative of
    their plain sum. *)
Lemma ones_complement_sum_closed (words : list Z) :
  Forall (fun w => 0 <= w <= 0xffff) words ->
  Spec.ones_complement_sum words = Words.representative (Words.total words).
Proof.
  intro H. unfold Spec.ones_complement_sum.
  change 0 with (Words.representative 0) at 1.
  now rewrite ones_complement_sum_from.
Qed.

Lemma zero_pad_even_aligned (b : list bool) :
  (List.length (Spec.zero_pad_even b) mod 16 = 0)%nat.
Proof. apply zero_pad_even_length. Qed.

Lemma covered_nonneg (ph udp : list bool) :
  (List.length ph mod 16 = 0)%nat -> 0 <= Words.covered ph udp.
Proof.
  intro H. unfold Words.covered.
  pose proof (total_nonneg _ (words16_bounds ph H)).
  pose proof (total_nonneg _ (words16_bounds _ (zero_pad_even_aligned udp))).
  lia.
Qed.

Lemma checksum_closed (ph udp : list bool) :
  (List.length ph mod 16 = 0)%nat ->
  Spec.checksum ph udp = 65535 - Words.representative (Words.covered ph udp).
Proof.
  intro H. unfold Spec.checksum, Words.covered.
  rewrite !ones_complement_sum_closed
    by (apply words16_bounds; [exact H || apply zero_pad_even_aligned]).
  rewrite carry_representatives
    by (apply total_nonneg, words16_bounds; [exact H || apply zero_pad_even_aligned]).
  reflexivity.
Qed.

Lemma complemented_sum_closed (ph udp : Buffer.t) :
  complemented_sum ph udp =
    if (List.length ph mod 16 =? 0)%nat
    then Ok (65535 - Words.representative (Words.covered ph udp))
    else Raise BufferError.
Proof.
  destruct (List.length ph mod 16 =? 0)%nat eqn:E.
  - apply Nat.eqb_eq in E.
    destruct (complemented_sum_spec ph udp E) as [-> _].
    now rewrite checksum_closed.
  - apply Nat.eqb_neq in E. unfold complemented_sum.
    now rewrite chunks_inexact.
Qed.

(** X5. The value that lines 208-226 compute is 0xFFFF minus the one's
    complement representative (0 for 0, else the residue modulo 65535 in
    1..65535) of the plain sum of all the 16-bit words of the pseudo-header
    and of the zero-padded UDP part; the loops fail exactly when the
    pseudo-header is not a whole number of 16-bit words. *)
Theorem complemented_sum_closed_form (pseudo_header udp_header_and_payload : Buffer.t) :
  complemented_sum pseudo_header udp_header_and_payload =
    if (List.length pseudo_header mod 16 =? 0)%nat
    then Ok (65535 - Words.representative
                       (Words.covered pseudo_header udp_header_and_payload))
    else Raise BufferError.
Proof.
  exact (complemented_sum_closed pseudo_header udp_header_and_payload).
Qed.

Lemma words16_single (word : list bool) :
  List.length word = 16%nat -> Spec.words16 word = [Buffer.value word].
Proof.
  intro H. rewrite words16_chunks by (rewrite H; reflexivity).
  rewrite H. cbn [Nat.div Nat.divmod fst Buffer.split_chunks map].
  now rewrite firstn_all2 by lia.
Qed.

Lemma words16_zeros (n : nat) : Words.total (Spec.words16 (repeat false n)) = 0.
Proof.
  unfold Spec.words16. rewrite bits_value_repeat_false.
  generalize (List.length (repeat false n) / 16)%nat. intro k.
  generalize (seq 0 k). intro l. unfold Words.total.
  induction l as [|i l IH]; [reflexivity|].
  cbn [map fold_right]. rewrite IH, Z.div_0_l, Z.mod_0_l; lia.
Qed.

Lemma aligned_app (a b : list bool) :
  (List.length a mod 16 = 0)%nat -> (List.length b mod 16 = 0)%nat ->
  (List.length (a ++ b) mod 16 = 0)%nat.
Proof.
  intros Ha Hb. rewrite length_app.
  pose proof (Nat.div_mod_eq (List.length a) 16).
  pose proof (Nat.div_mod_eq (List.length b) 16).
  replace (List.length a + List.length b)%nat
    with ((List.length a / 16 + List.length b / 16) * 16)%nat by lia.
  apply Nat.Div0.mod_mul.
Qed.

Lemma zero_pad_even_app (a b : list bool) :
  (List.length a mod 16 = 0)%nat ->
  Spec.zero_pad_even (a ++ b) = a ++ Spec.zero_pad_even b.
Proof.
  intro Ha. unfold Spec.zero_pad_even. rewrite <- app_assoc. do 3 f_equal.
  rewrite length_app.
  pose proof (Nat.div_mod_eq (List.length a) 16) as E.
  rewrite Ha, Nat.add_0_r in E. rewrite E at 1.
  rewrite Nat.add_comm, (Nat.mul_comm 16), Nat.Div0.mod_add. reflexivity.
Qed.

(** The words covered when the UDP part is cut in an aligned head and a
    rest. *)
Lemma covered_app (ph a b : list bool) :
  (List.length a mod 16 = 0)%nat ->
  Words.covered ph (a ++ b) =
  Words.total (Spec.words16 ph) + Words.total (Spec.words16 a) +
  Words.total (Spec.words16 (Spec.zero_pad_even b)).
Proof.
  intro Ha. unfold Words.covered.
  rewrite zero_pad_even_app by exact Ha.
  rewrite words16_app, total_app by (exact Ha || apply zero_pad_even_aligned).
  lia.
Qed.

Lemma covered_word (ph a word b : list bool) :
  (List.length a mod 16 = 0)%nat -> List.length word = 16%nat ->
  Words.covered ph (a ++ word ++ b) =
  Words.covered ph (a ++ b) + Buffer.value word.
Proof.
  intros Ha Hw.
  assert (List.length word mod 16 = 0)%nat as Hw' by (rewrite Hw; reflexivity).
  rewrite !covered_app by exact Ha.
  pose proof (covered_app [] word b Hw') as E.
  unfold Words.covered in E. cbn [app] in E.
  assert (Words.total (Spec.words16 []) = 0) as Z0 by reflexivity.
  rewrite Z0 in E. cbn [Z.add] in E. rewrite E.
  rewrite (words16_single word Hw).
  replace (Words.total [Buffer.value word]) with (Buffer.value word)
    by (unfold Words.total; cbn [fold_right]; lia).
  lia.
Qed.

(** With the pseudo-header held fixed, zero bits appended to the UDP part
    do not change the value of the two loops. *)
Lemma complemented_sum_trailing_zeros
    (pseudo_header udp_header_and_payload : Buffer.t) (k : nat) :
  complemented_sum pseudo_header (udp_header_and_payload ++ repeat false k) =
  complemented_sum pseudo_header udp_header_and_payload.
Proof.
  rewrite !complemented_sum_closed.
  destruct (List.length pseudo_header mod 16 =? 0)%nat; [|reflexivity].
  do 3 f_equal. unfold Words.covered. f_equal.
  set (udp := udp_header_and_payload).
  set (fill := ((16 - List.length udp mod 16) mod 16)%nat).
  set (fill' := ((16 - List.length (udp ++ repeat false k) mod 16) mod 16)%nat).
  assert (exists m, (k + fill' = fill + 16 * m)%nat) as [m Hm].
  { pose proof (zero_pad_even_length udp) as (_ & _ & H1).
    pose proof (zero_pad_even_length (udp ++ repeat false k)) as (_ & _ & H2).
    fold fill in H1. fold fill' in H2.
    rewrite length_app, repeat_length in H2.
    pose proof (Nat.mod_upper_bound (16 - List.length udp mod 16) 16 ltac:(lia)) as B1.
    fold fill in B1.
    set (q1 := ((List.length udp + 16 - 1) / 16)%nat) in *.
    set (q2 := ((List.length udp + k + 16 - 1) / 16)%nat) in *.
    exists (q2 - q1)%nat.
    assert (q1 <= q2)%nat by (apply Nat.Div0.div_le_mono; lia).
    lia. }
  assert (Spec.zero_pad_even (udp ++ repeat false k) =
          Spec.zero_pad_even udp ++ repeat false (16 * m)) as ->.
  { unfold Spec.zero_pad_even. fold fill fill'.
    rewrite <- !app_assoc, <- !repeat_app. now rewrite Hm. }
  rewrite words16_app, total_app, words16_zeros.
  - lia.
  - apply zero_pad_even_aligned.
  - rewrite repeat_length, Nat.mul_comm. apply Nat.Div0.mod_mul.
Qed.

(** X7. The value does not depend on the order of the 16-bit aligned parts
    of the pseudo-header: exchanging two of them, such as the source and
    the destination address, leaves it as it is. *)
Theorem complemented_sum_order_independent (a b rest udp : Buffer.t) :
  (List.length a mod 16 = 0)%nat -> (List.length b mod 16 = 0)%nat ->
  complemented_sum (a ++ b ++ rest) udp = complemented_sum (b ++ a ++ rest) udp.
Proof.
  intros Ha Hb. rewrite !complemented_sum_closed.
  pose proof (Nat.div_mod_eq (List.length a) 16) as Ea.
  pose proof (Nat.div_mod_eq (List.length b) 16) as Eb.
  rewrite !length_app.
  replace (List.length b + (List.length a + List.length rest))%nat
    with (List.length a + (List.length b + List.length rest))%nat by lia.
  destruct ((List.length a + (List.length b + List.length rest)) mod 16 =? 0)%nat eqn:E;
    [|reflexivity].
  apply Nat.eqb_eq in E.
  assert (List.length rest mod 16 = 0)%nat as Hr.
  { rewrite Nat.add_assoc in E.
    replace (List.length a + List.length b)%nat
      with ((List.length a / 16 + List.length b / 16) * 16)%nat in E by lia.
    rewrite Nat.add_comm, Nat.Div0.mod_add in E. exact E. }
  do 3 f_equal. unfold Words.covered. f_equal.
  rewrite !words16_app, !total_app;
    try assumption; try (apply aligned_app; assumption).
  lia.
Qed.

Lemma complemented_sum_order_independent_witness :
  complemented_sum (Spec.be_bits 32 1 ++ Spec.be_bits 32 2 ++ Spec.be_bits 32 17)
                   [true; false] =
  complemented_sum (Spec.be_bits 32 2 ++ Spec.be_bits 32 1 ++ Spec.be_bits 32 17)
                   [true; false].
Proof.
  apply complemented_sum_order_independent; reflexivity.
Defined.

Lemma representative_eq (x y : Z) :
  0 <= x -> 0 <= y -> Words.representative x = Words.representative y ->
  (x = 0 <-> y = 0) /\ (x - y) mod 65535 = 0.
Proof.
  intros Hx Hy H. unfold Words.representative in H.
  destruct (x =? 0) eqn:Ex; destruct (y =? 0) eqn:Ey;
    rewrite ?Z.eqb_eq, ?Z.eqb_neq in *.
  - subst. split; [tauto | reflexivity].
  - pose proof (Z.mod_pos_bound (y - 1) 65535 ltac:(lia)). lia.
  - pose proof (Z.mod_pos_bound (x - 1) 65535 ltac:(lia)). lia.
  - split; [tauto|]. Z.div_mod_to_equations. lia.
Qed.

(** X8. Error detection: when one 16-bit word of the UDP part, at a 16-bit
    boundary, is replaced by a different word, the value that lines 208-226
    compute changes, unless the two words are 0x0000 and 0xFFFF. *)
Theorem complemented_sum_detects_word_change
    (pseudo_header head word word' rest : Buffer.t) :
  (List.length pseudo_header mod 16 = 0)%nat ->
  (List.length head mod 16 = 0)%nat ->
  List.length word = 16%nat -> List.length word' = 16%nat ->
  word <> word' ->
  Z.abs (Buffer.value word - Buffer.value word') <> 65535 ->
  complemented_sum pseudo_header (head ++ word ++ rest) <>
  complemented_sum pseudo_header (head ++ word' ++ rest).
Proof.
  intros Hph Hh Hw Hw' Hne Habs.
  rewrite !complemented_sum_closed, Hph. cbn [Nat.eqb].
  intro H. apply Ok_inj in H.
  rewrite !covered_word in H by assumption.
  pose proof (covered_nonneg pseudo_header (head ++ rest) Hph) as Hc.
  pose proof (chunk_value_bounds word ltac:(lia)) as Bw.
  pose proof (chunk_value_bounds word' ltac:(lia)) as Bw'.
  assert (Words.representative (Words.covered pseudo_header (head ++ rest) + Buffer.value word) =
          Words.representative (Words.covered pseudo_header (head ++ rest) + Buffer.value word'))
    as E by lia.
  apply representative_eq in E as [_ E]; try lia.
  assert (Buffer.value word = Buffer.value word') as Ev.
  { Z.div_mod_to_equations. lia. }
  apply Hne. apply bits_value_inj; [congruence | exact Ev].
Qed.

Lemma complemented_sum_detects_word_change_witness :
  complemented_sum (Spec.be_bits 16 17) ([] ++ Spec.be_bits 16 5 ++ [true]) <>
  complemented_sum (Spec.be_bits 16 17) ([] ++ Spec.be_bits 16 4 ++ [true]).
Proof.
  apply complemented_sum_detects_word_change; try reflexivity.
  - vm_compute. discriminate.
  - vm_compute. discriminate.
Defined.

(** X9. The blind spot of the sum: as soon as some other covered word is
    not zero, a word 0x0000 replaced by 0xFFFF gives the same value. *)
Theorem complemented_sum_blind_to_all_ones
    (pseudo_header head rest : Buffer.t) :
  (List.length pseudo_header mod 16 = 0)%nat ->
  (List.length head mod 16 = 0)%nat ->
  0 < Words.covered pseudo_header (head ++ rest) ->
  complemented_sum pseudo_header (head ++ repeat false 16 ++ rest) =
  complemented_sum pseudo_header (head ++ repeat true 16 ++ rest).
Proof.
  intros Hph Hh Hpos.
  rewrite !complemented_sum_closed, Hph. cbn [Nat.eqb].
  rewrite !covered_word by (assumption || reflexivity).
  change (Buffer.value (repeat false 16)) with 0.
  change (Buffer.value (repeat true 16)) with 65535.
  do 2 f_equal. unfold Words.representative.
  destruct (Words.covered pseudo_header (head ++ rest) + 0 =? 0) eqn:E1;
    destruct (Words.covered pseudo_header (head ++ rest) + 65535 =? 0) eqn:E2;
    rewrite ?Z.eqb_eq, ?Z.eqb_neq in *; try lia.
  Z.div_mod_to_equations. lia.
Qed.

Lemma complemented_sum_blind_to_all_ones_witness :
  complemented_sum (Spec.be_bits 16 17) ([] ++ repeat false 16 ++ [true]) =
  complemented_sum (Spec.be_bits 16 17) ([] ++ repeat true 16 ++ [true]).
Proof.
  apply complemented_sum_blind_to_all_ones; try reflexivity.
Defined.

(** ** More on [_compute_checksum] *)

Lemma slice_from_app (prefix udp : Buffer.t) :
  Buffer.slice_from (prefix ++ udp) (Buffer.length prefix) = Ok udp.
Proof.
  rewrite slice_from_ok.
  - unfold Buffer.length. rewrite Nat2Z.id, skipn_app, skipn_all, Nat.sub_diag.
    reflexivity.
  - unfold Buffer.length. rewrite length_app. lia.
Qed.

Lemma py_index_out_of_range {A : Type} (l : list A) (i : Z) :
  i < - Z.of_nat (List.length l) \/ Z.of_nat (List.length l) <= i ->
  py_index l i = Raise IndexError.
Proof.
  intro H. unfold py_index.
  set (len := Z.of_nat (List.length l)) in *.
  destruct (i <? 0) eqn:E0.
  - destruct (0 <=? i + len) eqn:E1; [lia | reflexivity].
  - destruct (0 <=? i) eqn:E1; destruct (i <? len) eqn:E2; cbn [andb];
      try reflexivity; lia.
Qed.

Lemma next_offset_absent (target : string) (l : list string) :
  ~ In target l ->
  forall offset, next_offset String.eqb target l offset = Raise StopIteration.
Proof.
  induction l as [|x l IH]; intros Hn offset; [reflexivity|].
  cbn [next_offset]. destruct (String.eqb x target) eqn:E.
  - apply String.eqb_eq in E. subst. exfalso. apply Hn. now left.
  - apply IH. intro H. apply Hn. now right.
Qed.

Lemma in_firstn_in {A : Type} (x : A) (l : list A) :
  forall k, In x (firstn k l) -> In x l.
Proof.
  induction l as [|y l IH]; intros [|k] H; cbn [firstn] in H;
    try (destruct H; fail).
  destruct H as [H|H]; [now left | right; eapply IH; exact H].
Qed.

(** [l[p:0:-1]] never holds the first element of [l]. *)
Lemma py_slice_in_tail {A : Type} (l : list A) (p : Z) (x : A) :
  In x (py_slice_down_to_1 l p) -> In x (tl l).
Proof.
  unfold py_slice_down_to_1.
  destruct ((if p <? 0 then p + Z.of_nat (List.length l) else p) <? 0); [intros []|].
  intro H. apply in_rev in H.
  destruct l as [|a l]; cbn [tl].
  - rewrite firstn_nil in H. destruct H.
  - set (k := Z.to_nat _) in H. destruct k as [|k]; cbn [firstn skipn] in H.
    + destruct H.
    + eapply in_firstn_in. exact H.
Qed.

Lemma py_index_shift {A : Type} (l : list A) (i : Z) :
  - Z.of_nat (List.length l) <= i < 0 ->
  py_index l i = py_index l (i + Z.of_nat (List.length l)).
Proof.
  intro H. unfold py_index.
  destruct (i <? 0) eqn:E0; [|lia].
  destruct (i + Z.of_nat (List.length l) <? 0) eqn:E1; [lia | reflexivity].
Qed.

Lemma py_slice_shift {A : Type} (l : list A) (p : Z) :
  - Z.of_nat (List.length l) <= p < 0 ->
  py_slice_down_to_1 l p = py_slice_down_to_1 l (p + Z.of_nat (List.length l)).
Proof.
  intro H. unfold py_slice_down_to_1. cbn zeta.
  assert ((p <? 0) = true) as E0 by (apply Z.ltb_lt; lia).
  assert ((p + Z.of_nat (List.length l) <? 0) = false) as E1 by (apply Z.ltb_ge; lia).
  now rewrite E0, !E1.
Qed.

Lemma py_slice_length {A : Type} (l : list A) (p : Z) :
  - Z.of_nat (List.length l) <= p < 0 ->
  Z.of_nat (List.length (py_slice_down_to_1 l p)) = p + Z.of_nat (List.length l).
Proof.
  intro H. unfold py_slice_down_to_1. cbn zeta.
  assert ((p <? 0) = true) as E0 by (apply Z.ltb_lt; lia).
  assert ((p + Z.of_nat (List.length l) <? 0) = false) as E1 by (apply Z.ltb_ge; lia).
  rewrite E0, !E1.
  rewrite length_rev, length_skipn, length_firstn. lia.
Qed.




Section ComputeChecksumMore.

Variables IPv6_HEADER_ID IPV4_HEADER_ID : string.
Variables IPv6Fields_SRC_ADDRESS IPv4Fields_SRC_ADDRESS : string.


(** X11. For IPv6, with addresses of whole 16-bit words and a UDP part
    below 65536 octets, the buffer returned carries the checksum over the
    pseudo-header of the specification (32-bit length, 24 zero bits, next
    header 17), although the code sums a shorter one. *)
Theorem compute_checksum_ipv6_conforms (packet : Buffer.t) (field_cursor : Z)
    (fields : list (string * Buffer.t)) (position : Z) (checksum : Buffer.t)
    (id : string) :
  _compute_checksum IPv6_HEADER_ID IPV4_HEADER_ID IPv6Fields_SRC_ADDRESS
    IPv4Fields_SRC_ADDRESS packet field_cursor fields position = Ok checksum ->
  py_index (map fst fields) (position - 4) = Ok id ->
  str_in IPv6_HEADER_ID id = true ->
  exists i source dest udp,
    py_index (map fst fields) i = Ok IPv6Fields_SRC_ADDRESS /\
    py_index (map snd fields) i = Ok source /\
    py_index (map snd fields) (i + 1) = Ok dest /\
    Buffer.slice_from packet (field_cursor - 48) = Ok udp /\
    ((List.length source mod 16 = 0)%nat -> (List.length dest mod 16 = 0)%nat ->
     Spec.ceil8 (Buffer.length udp) < 2 ^ 16 ->
     checksum_buffer_of
       (Spec.checksum
          (Spec.ipv6_pseudo_header source dest (Spec.ceil8 (Buffer.length udp))) udp) =
     Ok checksum).
Proof.
  intros H Hid H6.
  apply compute_checksum_trace in H as (id' & udp & ph & H1 & H2 & H3 & H4 & H5 & _).
  rewrite Hid in H1. apply Ok_inj in H1. subst id'.
  unfold pseudo_header_of in H3. rewrite H6 in H3.
  destruct (ipv6_pseudo_header_layout _ _ _ _ _ _ _ Hid H3)
    as (i & source & dest & I1 & I2 & I3 & I4 & I5).
  exists i, source, dest, udp. repeat (split; [assumption|]).
  intros Hs Hd Hl. rewrite octets_ceil8 in *.
  rewrite <- compact_pseudo_header_same_checksum; try assumption; [|lia].
  now rewrite <- I5.
Qed.

(** X12. Only the part of the packet from 48 bits before the cursor on is
    read: two packets with the same UDP part and any bits before it get the
    same answer. *)
Theorem compute_checksum_ignores_packet_prefix (prefix1 prefix2 udp : Buffer.t)
    (fields : list (string * Buffer.t)) (position : Z) :
  _compute_checksum IPv6_HEADER_ID IPV4_HEADER_ID IPv6Fields_SRC_ADDRESS
    IPv4Fields_SRC_ADDRESS (prefix1 ++ udp) (Buffer.length prefix1 + 48)
    fields position =
  _compute_checksum IPv6_HEADER_ID IPV4_HEADER_ID IPv6Fields_SRC_ADDRESS
    IPv4Fields_SRC_ADDRESS (prefix2 ++ udp) (Buffer.length prefix2 + 48)
    fields position.
Proof.
  unfold _compute_checksum.
  replace (Buffer.length prefix1 + 48 - 48) with (Buffer.length prefix1) by lia.
  replace (Buffer.length prefix2 + 48 - 48) with (Buffer.length prefix2) by lia.
  now rewrite !slice_from_app.
Qed.

(** X6. Zero bits appended to the packet that start no new octet of the
    UDP part (its octet count, which the pseudo-header carries, stays the
    same) do not change the result of [_compute_checksum]: the bits that
    fill the last 16-bit word are summed as zeros anyway. *)
Theorem compute_checksum_ignores_zero_fill (packet : Buffer.t) (field_cursor : Z)
    (fields : list (string * Buffer.t)) (position : Z) (k : nat) :
  0 <= field_cursor - 48 <= Buffer.length packet ->
  octets (Buffer.length packet - (field_cursor - 48) + Z.of_nat k) =
    octets (Buffer.length packet - (field_cursor - 48)) ->
  _compute_checksum IPv6_HEADER_ID IPV4_HEADER_ID IPv6Fields_SRC_ADDRESS
    IPv4Fields_SRC_ADDRESS (packet ++ repeat false k) field_cursor fields position =
  _compute_checksum IPv6_HEADER_ID IPV4_HEADER_ID IPv6Fields_SRC_ADDRESS
    IPv4Fields_SRC_ADDRESS packet field_cursor fields position.
Proof.
  intros Hc Ho. unfold _compute_checksum.
  destruct (py_index (map fst fields) (position - 4)) as [id|e]; [|reflexivity].
  cbn [bind].
  rewrite (slice_from_ok packet) by exact Hc.
  rewrite (slice_from_ok (packet ++ repeat false k))
    by (unfold Buffer.length in *; rewrite length_app; lia).
  cbn [bind].
  rewrite skipn_app.
  replace (Z.to_nat (field_cursor - 48) - List.length packet)%nat with 0%nat
    by (unfold Buffer.length in Hc; lia).
  rewrite skipn_O.
  set (udp := skipn (Z.to_nat (field_cursor - 48)) packet).
  assert (Buffer.length udp = Buffer.length packet - (field_cursor - 48)) as Eudp
    by (apply skipn_length_Z; exact Hc).
  assert (Buffer.length (udp ++ repeat false k) =
          Buffer.length packet - (field_cursor - 48) + Z.of_nat k) as Efill.
  { unfold Buffer.length in *. rewrite length_app, repeat_length. lia. }
  rewrite Efill, Ho, <- Eudp.
  destruct (pseudo_header_of IPv6_HEADER_ID IPV4_HEADER_ID IPv6Fields_SRC_ADDRESS
              IPv4Fields_SRC_ADDRESS id (map fst fields) (map snd fields)
              (position - 4) (octets (Buffer.length udp))) as [ph|e];
    [|reflexivity].
  cbn [bind]. now rewrite complemented_sum_trailing_zeros.
Qed.

(** X13. When [rule_field_position - 4] is no index of the context (in
    particular when the context is empty), [_compute_checksum] raises
    IndexError, whatever the packet and the cursor. *)
Theorem compute_checksum_index_error (packet : Buffer.t) (field_cursor : Z)
    (fields : list (string * Buffer.t)) (position : Z) :
  position - 4 < - Z.of_nat (List.length fields) \/
  Z.of_nat (List.length fields) <= position - 4 ->
  _compute_checksum IPv6_HEADER_ID IPV4_HEADER_ID IPv6Fields_SRC_ADDRESS
    IPv4Fields_SRC_ADDRESS packet field_cursor fields position = Raise IndexError.
Proof.
  intro H. unfold _compute_checksum.
  rewrite py_index_out_of_range by (rewrite length_map; exact H).
  reflexivity.
Qed.

(** X14. The scan for the source address runs from index
    [rule_field_position - 4] down to index 1: when the id of the
    source-address field of the chosen protocol occurs nowhere behind the
    first entry of the context, the call raises StopIteration, even if the
    first entry is that field. *)
Theorem compute_checksum_source_address_not_found (packet : Buffer.t)
    (field_cursor : Z) (fields : list (string * Buffer.t)) (position : Z)
    (id : string) (udp : Buffer.t) :
  py_index (map fst fields) (position - 4) = Ok id ->
  Buffer.slice_from packet (field_cursor - 48) = Ok udp ->
  str_in IPv6_HEADER_ID id = true \/ str_in IPV4_HEADER_ID id = true ->
  ~ In (if str_in IPv6_HEADER_ID id then IPv6Fields_SRC_ADDRESS
        else IPv4Fields_SRC_ADDRESS) (tl (map fst fields)) ->
  _compute_checksum IPv6_HEADER_ID IPV4_HEADER_ID IPv6Fields_SRC_ADDRESS
    IPv4Fields_SRC_ADDRESS packet field_cursor fields position = Raise StopIteration.
Proof.
  intros Hid Hudp Hm Habs. unfold _compute_checksum.
  rewrite Hid. cbn [bind]. rewrite Hudp. cbn [bind].
  unfold pseudo_header_of.
  destruct (str_in IPv6_HEADER_ID id) eqn:E6.
  - unfold ipv6_pseudo_header.
    rewrite next_offset_absent; [reflexivity|].
    intro H. apply Habs. eapply py_slice_in_tail. exact H.
  - destruct Hm as [Hm|Hm]; [discriminate|]. rewrite Hm.
    unfold ipv4_pseudo_header.
    rewrite next_offset_absent; [reflexivity|].
    intro H. apply Habs. eapply py_slice_in_tail. exact H.
Qed.

(** X15. Size limits: a call that returns in the IPv4 branch had a UDP part
    of at most 65535 octets ([to_bytes(2, 'big')]); in the IPv6 branch the
    bound is 2^32 - 1 octets ([to_bytes(4, 'big')]). *)
Theorem compute_checksum_size_limits (packet : Buffer.t) (field_cursor : Z)
    (fields : list (string * Buffer.t)) (position : Z) (checksum : Buffer.t) :
  _compute_checksum IPv6_HEADER_ID IPV4_HEADER_ID IPv6Fields_SRC_ADDRESS
    IPv4Fields_SRC_ADDRESS packet field_cursor fields position = Ok checksum ->
  exists id udp,
    py_index (map fst fields) (position - 4) = Ok id /\
    Buffer.slice_from packet (field_cursor - 48) = Ok udp /\
    (str_in IPv6_HEADER_ID id = false -> Spec.ceil8 (Buffer.length udp) < 2 ^ 16) /\
    (str_in IPv6_HEADER_ID id = true -> Spec.ceil8 (Buffer.length udp) < 2 ^ 32).
Proof.
  intro H.
  apply compute_checksum_trace in H as (id & udp & ph & H1 & H2 & H3 & _ & _ & Hb).
  exists id, udp. split; [exact H1|]. split; [exact H2|].
  rewrite <- octets_ceil8.
  destruct Hb as [[E6 Hb]|[E6 [E4 Hb]]].
  - split; [rewrite E6; discriminate|]. intros _.
    destruct (ipv6_pseudo_header_layout _ _ _ _ _ _ _ H1 Hb)
      as (_ & _ & _ & _ & _ & _ & Hl & _). lia.
  - split; [|rewrite E6; discriminate]. intros _.
    destruct (ipv4_pseudo_header_layout _ _ _ _ _ _ _ H1 Hb)
      as (_ & _ & _ & _ & _ & _ & Hl & _). lia.
Qed.

End ComputeChecksumMore.

Section PositionWraps.

Variables IPv6_HEADER_ID IPV4_HEADER_ID : string.
Variables IPv6Fields_SRC_ADDRESS IPv4Fields_SRC_ADDRESS : string.

Lemma addresses_shift (ids : list string) (values : list Buffer.t) (p : Z)
    (target : string) :
  List.length values = List.length ids ->
  - Z.of_nat (List.length ids) <= p <= -2 ->
  forall offset,
  next_offset String.eqb target (py_slice_down_to_1 ids p) 0 = Ok offset ->
  py_index values (p - offset) =
    py_index values (p + Z.of_nat (List.length ids) - offset) /\
  py_index values (p - offset + 1) =
    py_index values (p + Z.of_nat (List.length ids) - offset + 1).
Proof.
  intros Hlen Hp offset H.
  apply next_offset_found in H as (j & -> & Hj).
  assert (j < List.length (py_slice_down_to_1 ids p))%nat as Hlt
    by (apply nth_error_Some; rewrite Hj; discriminate).
  pose proof (py_slice_length ids p ltac:(lia)) as Hs.
  split.
  - rewrite (py_index_shift values (p - (0 + Z.of_nat j))) by lia.
    rewrite Hlen. f_equal. lia.
  - rewrite (py_index_shift values (p - (0 + Z.of_nat j) + 1)) by lia.
    rewrite Hlen. f_equal. lia.
Qed.

Lemma pseudo_header_of_shift (id : string) (ids : list string)
    (values : list Buffer.t) (p udp_total_length : Z) :
  List.length values = List.length ids ->
  - Z.of_nat (List.length ids) <= p <= -2 ->
  pseudo_header_of IPv6_HEADER_ID IPV4_HEADER_ID IPv6Fields_SRC_ADDRESS
    IPv4Fields_SRC_ADDRESS id ids values p udp_total_length =
  pseudo_header_of IPv6_HEADER_ID IPV4_HEADER_ID IPv6Fields_SRC_ADDRESS
    IPv4Fields_SRC_ADDRESS id ids values (p + Z.of_nat (List.length ids))
    udp_total_length.
Proof.
  intros Hlen Hp. unfold pseudo_header_of, ipv6_pseudo_header, ipv4_pseudo_header.
  rewrite <- !py_slice_shift by lia.
  destruct (str_in IPv6_HEADER_ID id).
  - destruct (next_offset String.eqb IPv6Fields_SRC_ADDRESS
                (py_slice_down_to_1 ids p) 0) as [offset|e] eqn:E; [|reflexivity].
    cbn [bind].
    destruct (addresses_shift ids values p _ Hlen Hp offset E) as [-> ->].
    reflexivity.
  - destruct (str_in IPV4_HEADER_ID id); [|reflexivity].
    destruct (next_offset String.eqb IPv4Fields_SRC_ADDRESS
                (py_slice_down_to_1 ids p) 0) as [offset|e] eqn:E; [|reflexivity].
    cbn [bind].
    destruct (addresses_shift ids values p _ Hlen Hp offset E) as [-> ->].
    reflexivity.
Qed.

(** X16. A rule position below 4 does not fail: Python's negative indexing
    makes the call count from the end of the context.  For
    [rule_field_position - 4] between minus the length of the context and
    -2, the call behaves as the one for the position increased by that
    length. *)
Theorem compute_checksum_position_wraps (packet : Buffer.t) (field_cursor : Z)
    (fields : list (string * Buffer.t)) (position : Z) :
  - Z.of_nat (List.length fields) <= position - 4 <= -2 ->
  _compute_checksum IPv6_HEADER_ID IPV4_HEADER_ID IPv6Fields_SRC_ADDRESS
    IPv4Fields_SRC_ADDRESS packet field_cursor fields position =
  _compute_checksum IPv6_HEADER_ID IPV4_HEADER_ID IPv6Fields_SRC_ADDRESS
    IPv4Fields_SRC_ADDRESS packet field_cursor fields
    (position + Z.of_nat (List.length fields)).
Proof.
  intro H. unfold _compute_checksum.
  replace (position + Z.of_nat (List.length fields) - 4)
    with (position - 4 + Z.of_nat (List.length (map fst fields)))
    by (rewrite length_map; lia).
  rewrite <- py_index_shift by (rewrite length_map; lia).
  destruct (py_index (map fst fields) (position - 4)) as [id|e]; [|reflexivity].
  cbn [bind].
  destruct (Buffer.slice_from packet (field_cursor - 48)) as [udp|e]; [|reflexivity].
  cbn [bind].
  rewrite <- pseudo_header_of_shift; [reflexivity | now rewrite !length_map |].
  rewrite length_map. exact H.
Qed.

End PositionWraps.

(** ** The further properties on concrete calls *)


Lemma compute_checksum_ipv6_conforms_witness :
  exists i source dest udp,
    py_index (map fst FixtureContext.decompressed_fields) i = Ok IPv6Fields.SRC_ADDRESS /\
    py_index (map snd FixtureContext.decompressed_fields) i = Ok source /\
    py_index (map snd FixtureContext.decompressed_fields) (i + 1) = Ok dest /\
    Buffer.slice_from FixtureContext.packet (368 - 48) = Ok udp /\
    ((List.length source mod 16 = 0)%nat -> (List.length dest mod 16 = 0)%nat ->
     Spec.ceil8 (Buffer.length udp) < 2 ^ 16 ->
     checksum_buffer_of
       (Spec.checksum
          (Spec.ipv6_pseudo_header source dest (Spec.ceil8 (Buffer.length udp))) udp) =
     Ok (Spec.be_bits 16 0x690e)).
Proof.
  apply (compute_checksum_ipv6_conforms
           IPv6_HEADER_ID IPV4_HEADER_ID IPv6Fields.SRC_ADDRESS IPv4Fields.SRC_ADDRESS
           FixtureContext.packet 368 FixtureContext.decompressed_fields 11
           (Spec.be_bits 16 0x690e) IPv6Fields.DST_ADDRESS).
  - vm_compute. reflexivity.
  - vm_compute. reflexivity.
  - vm_compute. reflexivity.
Defined.

Lemma compute_checksum_ignores_zero_fill_witness :
  _compute_checksum IPv6_HEADER_ID IPV4_HEADER_ID IPv6Fields.SRC_ADDRESS
    IPv4Fields.SRC_ADDRESS ((FixtureContext.packet ++ [true]) ++ repeat false 7)
    368 FixtureContext.decompressed_fields 11 =
  _compute_checksum IPv6_HEADER_ID IPV4_HEADER_ID IPv6Fields.SRC_ADDRESS
    IPv4Fields.SRC_ADDRESS (FixtureContext.packet ++ [true])
    368 FixtureContext.decompressed_fields 11.
Proof.
  apply compute_checksum_ignores_zero_fill.
  - vm_compute. split; discriminate.
  - vm_compute. reflexivity.
Defined.

(** A zero bit that starts a new octet is seen: the length word of the
    pseudo-header counts it. *)
Lemma compute_checksum_counts_appended_octet :
  FixtureContext.compute_checksum FixtureContext.packet 368
    FixtureContext.decompressed_fields 11 = Ok (Spec.be_bits 16 0x690e) /\
  FixtureContext.compute_checksum (FixtureContext.packet ++ repeat false 1) 368
    FixtureContext.decompressed_fields 11 = Ok (Spec.be_bits 16 0x690d).
Proof.
  split; vm_compute; reflexivity.
Qed.

Lemma compute_checksum_index_error_witness :
  _compute_checksum IPv6_HEADER_ID IPV4_HEADER_ID IPv6Fields.SRC_ADDRESS
    IPv4Fields.SRC_ADDRESS (repeat false 64) 48 [] 11 = Raise IndexError.
Proof.
  apply compute_checksum_index_error. right. vm_compute. discriminate.
Defined.

Lemma compute_checksum_source_address_not_found_witness :
  _compute_checksum IPv6_HEADER_ID IPV4_HEADER_ID IPv6Fields.SRC_ADDRESS
    IPv4Fields.SRC_ADDRESS (repeat false 64) 48
    [(IPv6Fields.SRC_ADDRESS, Spec.be_bits 128 1);
     (IPv6Fields.DST_ADDRESS, Spec.be_bits 128 2);
     (UDPFields.SOURCE_PORT, Spec.be_bits 16 0);
     (UDPFields.DESTINATION_PORT, Spec.be_bits 16 0);
     (UDPFields.LENGTH, Spec.be_bits 16 8)] 5 = Raise StopIteration.
Proof.
  apply (compute_checksum_source_address_not_found
           IPv6_HEADER_ID IPV4_HEADER_ID IPv6Fields.SRC_ADDRESS IPv4Fields.SRC_ADDRESS
           (repeat false 64) 48 _ 5 IPv6Fields.DST_ADDRESS (repeat false 64)).
  - vm_compute. reflexivity.
  - vm_compute. reflexivity.
  - left. vm_compute. reflexivity.
  - vm_compute. intros [H|[H|[H|[H|[]]]]]; discriminate H.
Defined.

Lemma compute_checksum_size_limits_witness :
  exists id udp,
    py_index (map fst FixtureContext.decompressed_fields) (11 - 4) = Ok id /\
    Buffer.slice_from FixtureContext.packet (368 - 48) = Ok udp /\
    (str_in IPv6_HEADER_ID id = false -> Spec.ceil8 (Buffer.length udp) < 2 ^ 16) /\
    (str_in IPv6_HEADER_ID id = true -> Spec.ceil8 (Buffer.length udp) < 2 ^ 32).
Proof.
  apply (compute_checksum_size_limits
           IPv6_HEADER_ID IPV4_HEADER_ID IPv6Fields.SRC_ADDRESS IPv4Fields.SRC_ADDRESS
           FixtureContext.packet 368 FixtureContext.decompressed_fields 11
           (Spec.be_bits 16 0x690e)).
  vm_compute. reflexivity.
Defined.

Lemma compute_checksum_position_wraps_witness :
  _compute_checksum IPv6_HEADER_ID IPV4_HEADER_ID IPv6Fields.SRC_ADDRESS
    IPv4Fields.SRC_ADDRESS FixtureContext.packet 368
    FixtureContext.decompressed_fields 0 =
  _compute_checksum IPv6_HEADER_ID IPV4_HEADER_ID IPv6Fields.SRC_ADDRESS
    IPv4Fields.SRC_ADDRESS FixtureContext.packet 368
    FixtureContext.decompressed_fields
    (0 + Z.of_nat (List.length FixtureContext.decompressed_fields)).
Proof.
  apply compute_checksum_position_wraps. vm_compute. split; discriminate.
Defined.
